(** * FilterLists ETL connector: a shallow embedding of [etl_connector.py]

    The connector pulls JSON collections from a catalogue API, wraps every
    record in an ingestion envelope and stores the batch.  This file embeds
    the fetch, extract and transform steps and the endpoint-to-collection
    mapping, and states the properties of the design over that embedding.

    Conventions.  Python dictionaries are finite maps with string keys
    ([gmap string _]): dictionary equality ignores insertion order and no
    property below depends on it.  Python strings are [string]s of bytes
    (UTF-8); the only character the code inspects is ["/"], which never
    occurs inside a multi-byte sequence.  Effects (HTTP requests, sleeping,
    logging, reading the clock) are threaded through an explicit [world].
    Where a property is about what the code writes to the objects it is
    handed, [transform] is run a second time over a store of mutable
    objects (module [Heap]), and the two runs are shown to agree. *)

From Stdlib Require Import ZArith QArith String Ascii List Lia.
From stdpp Require Import base gmap strings list fin_maps pretty.

Local Set Warnings "-register-all".
Local Open Scope Z_scope.

(** ** Python values *)

Module Py.

(** JSON values as [resp.json()] produces them, plus the aware [datetime]
    the transform step stores in its documents.  A finite float is
    represented by the rational it denotes (the non-finite floats, which
    JSON proper cannot express, are left out); a [datetime] by its instant
    in microseconds. *)
Inductive value : Type :=
  | VNone
  | VBool (b : bool)
  | VInt (z : Z)
  | VFloat (q : Q)
  | VStr (s : string)
  | VTime (t : Z)
  | VList (xs : list value)
  | VDict (d : gmap string value).

(** [bool] is a subclass of [int], and [int] and [float] compare by value. *)
Definition as_number (v : value) : option Q :=
  match v with
  | VBool b => Some (if b then 1%Q else 0%Q)
  | VInt z => Some (inject_Z z)
  | VFloat q => Some q
  | _ => None
  end.

(** [a == b]. *)
Fixpoint py_eq (a b : value) {struct a} : bool :=
  match as_number a, as_number b with
  | Some x, Some y => Qeq_bool x y
  | Some _, None | None, Some _ => false
  | None, None =>
      match a, b with
      | VNone, VNone => true
      | VStr s, VStr t => bool_decide (s = t)
      | VTime s, VTime t => bool_decide (s = t)
      | VList xs, VList ys =>
          (fix go (xs ys : list value) : bool :=
             match xs, ys with
             | [], [] => true
             | x :: xs', y :: ys' => py_eq x y && go xs' ys'
             | _, _ => false
             end) xs ys
      | VDict d, VDict e =>
          bool_decide (dom d = dom e) &&
          map_fold (fun k v acc =>
                      acc && match e !! k with
                             | Some w => py_eq v w
                             | None => false
                             end) true d
      | _, _ => false
      end
  end.

(** [v in xs] for a list display [xs]. *)
Definition py_in (v : value) (xs : list value) : bool :=
  existsb (py_eq v) xs.

(** Truth value of an object, as [or] and [if] test it. *)
Definition truthy (v : value) : bool :=
  match v with
  | VNone => false
  | VBool b => b
  | VInt z => negb (z =? 0)
  | VFloat q => negb (Qeq_bool q 0)
  | VStr s => negb (bool_decide (s = ""))
  | VTime _ => true
  | VList xs => match xs with [] => false | _ => true end
  | VDict d => negb (bool_decide (d = ∅))
  end.

(** [a or b]: the first operand when it is truthy, else the second. *)
Definition py_or (a b : value) : value := if truthy a then a else b.

(** [v is None]. *)
Definition is_None (v : value) : bool :=
  match v with VNone => true | _ => false end.

(** [d.get(k)], with its default [None]. *)
Definition get (d : gmap string value) (k : string) : value :=
  default VNone (d !! k).

(** *** Strings *)

(** [s.lstrip(c)] and [s.rstrip(c)] for a one-character set [c]. *)
Fixpoint lstrip (c : ascii) (s : string) : string :=
  match s with
  | EmptyString => EmptyString
  | String a s' => if Ascii.eqb a c then lstrip c s' else s
  end.

Fixpoint rstrip (c : ascii) (s : string) : string :=
  match s with
  | EmptyString => EmptyString
  | String a s' =>
      match rstrip c s' with
      | EmptyString => if Ascii.eqb a c then EmptyString else String a EmptyString
      | r => String a r
      end
  end.

(** [s.strip(c)]. *)
Definition strip (c : ascii) (s : string) : string := rstrip c (lstrip c s).

(** [s.replace(old, new)] for a one-character [old]. *)
Fixpoint replace (old : ascii) (new : string) (s : string) : string :=
  match s with
  | EmptyString => EmptyString
  | String a s' =>
      if Ascii.eqb a old then new +:+ replace old new s'
      else String a (replace old new s')
  end.

End Py.
Import Py.

Definition slash : ascii := "/"%char.

(** ** Records and their cleaning *)

(** [clean_record], the local function of [transform]:
    [{k: v for k, v in d.items() if v not in [None, "", [], {}, "null"]}]. *)
Definition clean_record (d : gmap string value) : gmap string value :=
  filter (fun kv => py_in kv.2 [VNone; VStr ""; VList []; VDict ∅; VStr "null"] = false) d.

(** ** Collection names *)

(** [endpoint_to_collection]. *)
Definition endpoint_to_collection (endpoint : string) : string :=
  let name := replace slash "_" (strip slash endpoint) in
  let name := if bool_decide (name = "") then "root" else name in
  name +:+ "_raw".

(** ** Effects *)

(** Exceptions the modelled code can meet.  [Timeout] is a subclass of
    [RequestException] in [requests]; both are kept apart because
    [safe_get_json] logs them differently. *)
Inductive exn : Type :=
  | Timeout
  | RequestException
  | AttributeError
  | TypeError
  | OtherError (name : string).

Inductive result (A : Type) : Type :=
  | Ok (a : A)
  | Raise (e : exn).
Arguments Ok {A} a.
Arguments Raise {A} e.

Inductive level : Type := DEBUG | INFO | WARNING | ERROR.

(** One HTTP GET as [session.get(url, params=..., timeout=...)] issues it. *)
Record request : Type := Request {
  req_url : string;
  req_params : value;
  req_timeout : value;
}.

(** The observable actions: a GET, a [time.sleep], and a call of the logging
    API with its message template and the values interpolated into it. *)
Inductive event : Type :=
  | EvGet (r : request)
  | EvSleep (seconds : Q)
  | EvLog (lvl : level) (msg : string) (args : list value).

(** What has happened so far: the number of GETs issued, the number of
    clock readings taken, and the chronological trace of effects. *)
Record world : Type := World {
  requests : nat;
  clock_reads : nat;
  trace : list event;
}.

Definition world0 : world := World 0 0 [].

(** The collaborators outside the program.  [net n r] is what the [n]-th GET
    of the run does when it is the request [r]: the decoded body, or the
    exception leaving [session.get], [raise_for_status] or [resp.json]
    (the adapter's own status retries happen inside it).  [clock n] is the
    [n]-th reading of [datetime.now().astimezone()]. *)
Record platform : Type := Platform {
  net : nat -> request -> result value;
  clock : nat -> Z;
  isoformat : Z -> string;
  py_str : value -> string;
}.

(** Module-level configuration names. *)
Record globals : Type := Globals {
  BASE_URL : string;
  MONGO_URI : string;
  DB_NAME : string;
  REQUEST_TIMEOUT : value;
}.

Definition M (A : Type) : Type := world -> result A * world.

Definition ret {A} (a : A) : M A := fun w => (Ok a, w).

Definition raise {A} (e : exn) : M A := fun w => (Raise e, w).

Definition bind {A B} (m : M A) (k : A -> M B) : M B :=
  fun w =>
    match m w with
    | (Ok a, w') => k a w'
    | (Raise e, w') => (Raise e, w')
    end.

Notation "'let*' x ':=' m 'in' k" := (bind m (fun x => k))
  (at level 10, x name, m at level 100, k at level 200).
Notation "m ';;' k" := (bind m (fun _ => k))
  (at level 100, k at level 200, right associativity).

Definition emit (e : event) : M unit :=
  fun w => (Ok tt, World (requests w) (clock_reads w) (trace w ++ [e])).

Definition log (lvl : level) (msg : string) (args : list value) : M unit :=
  emit (EvLog lvl msg args).

Definition sleep (seconds : Q) : M unit := emit (EvSleep seconds).

(** ** Module initialisation *)

(** [os.getenv(key, default)]. *)
Definition getenv (env : gmap string string) (key dflt : string) : string :=
  default dflt (env !! key).

Section Init.

(** [float(s)] on a string: the number read, or [None] for [ValueError]. *)
Variable float : string -> option Q.

(** Line 26: the value read from the configuration. *)
Definition configured_timeout (env : gmap string string) : option value :=
  VFloat <$> float (getenv env "REQUEST_TIMEOUT" "10").

(** The top-level assignments of configuration names in source order; a
    later binding of a name replaces the earlier one.  [None] when [float]
    raises and the import fails.  The HTTP session and the MongoDB client,
    set up between the two bindings of [REQUEST_TIMEOUT], bind other names
    and are not part of this model. *)
Definition module_init (env : gmap string string) : option globals :=
  let base_url := getenv env "BASE_URL" "https://api.filterlists.com" in
  let mongo_uri := getenv env "MONGO_URI" "mongodb://localhost:27017" in
  let db_name := getenv env "DB_NAME" "filterlists_db" in
  match configured_timeout env with
  | None => None
  | Some request_timeout =>                       (* line 26 *)
      let request_timeout := VInt 10 in           (* line 72 *)
      Some (Globals base_url mongo_uri db_name request_timeout)
  end.

End Init.

(** A reader for plain decimal literals ([digits] or [digits.digits]), the
    fragment of [float] the examples below need. *)
Definition digit_of (a : ascii) : option Z :=
  let n := Z.of_N (N_of_ascii a) in
  if (48 <=? n) && (n <=? 57) then Some (n - 48) else None.

Fixpoint read_digits (acc : Z) (s : string) : option (Z * string) :=
  match s with
  | EmptyString => Some (acc, EmptyString)
  | String a s' =>
      match digit_of a with
      | Some d => read_digits (10 * acc + d) s'
      | None => Some (acc, s)
      end
  end.

Definition float_of_decimal (s : string) : option Q :=
  match s with
  | EmptyString => None
  | String a _ =>
      match digit_of a, read_digits 0 s with
      | Some _, Some (n, EmptyString) => Some (inject_Z n)
      | Some _, Some (n, String "." frac) =>
          match read_digits 0 frac with
          | Some (m, EmptyString) =>
              Some (inject_Z n + inject_Z m / inject_Z (10 ^ Z.of_nat (String.length frac)))%Q
          | _ => None
          end
      | _, _ => None
      end
  end.

(** ** The connector *)

Section Connector.

Variable P : platform.
Variable G : globals.

(** [session.get] followed by [raise_for_status] and [json]. *)
Definition session_get (url : string) (params timeout : value) : M value :=
  fun w =>
    let r := Request url params timeout in
    (net P (requests w) r,
     World (S (requests w)) (clock_reads w) (trace w ++ [EvGet r])).

(** The [for attempt in range(3)] loop of [safe_get_json], over the
    attempts still to make. *)
Fixpoint safe_get_json_loop (attempts : list Z) (url : string) (params : value)
  : M value :=
  match attempts with
  | [] =>
      log ERROR "Failed to fetch {url} after 3 attempts — skipping." [VStr url];;
      ret (VDict ∅)
  | attempt :: rest =>
      fun w =>
        match session_get url params (REQUEST_TIMEOUT G) w with
        | (Ok v, w') => (Ok v, w')
        | (Raise Timeout, w') =>
            (log WARNING "Timeout while fetching {url} (attempt {attempt+1}/3)"
                 [VStr url; VInt (attempt + 1)];;
             sleep 2;;
             safe_get_json_loop rest url params) w'
        | (Raise RequestException, w') =>
            (log WARNING "Error fetching {url}: {e}" [VStr url];;
             sleep 2;;
             safe_get_json_loop rest url params) w'
        | (Raise e, w') => (Raise e, w')
        end
  end.

Definition safe_get_json (url : string) (params : value) : M value :=
  safe_get_json_loop [0; 1; 2] url params.

(** [item.get(key)] on an arbitrary JSON value: only mappings have [get]. *)
Definition item_get (item : value) (key : string) : M value :=
  match item with
  | VDict d => ret (get d key)
  | _ => raise AttributeError
  end.

(** The [for item in lists] loop of [extract]. *)
Fixpoint extract_details (lists detailed : list value) : M (list value) :=
  match lists with
  | [] => ret detailed
  | item :: rest =>
      let* list_id := item_get item "id" in
      if is_None list_id then extract_details rest (detailed ++ [item])
      else
        let detail_url := rstrip slash (BASE_URL G) +:+ "/lists/" +:+ py_str P list_id in
        log DEBUG "Fetching detail for list id=%s" [list_id];;
        let* detail := safe_get_json detail_url VNone in
        let detailed := detailed ++ [if negb (is_None detail) then detail else item] in
        sleep 0.1;;
        extract_details rest detailed
  end.

Definition extract (endpoint : string) : M (list value) :=
  let url := rstrip slash (BASE_URL G) +:+ endpoint in
  log INFO "Extracting %s" [VStr endpoint];;
  let* data := safe_get_json url VNone in
  if is_None data then
    log WARNING "No data returned from %s" [VStr endpoint];;
    ret []
  else if bool_decide (endpoint = "/lists") then
    let lists := match data with VList l => l | _ => [] end in
    extract_details lists []
  else
    match data with
    | VList l => ret l
    | VDict d =>
        match d !! "data" with
        | Some (VList l) => ret l
        | _ => ret [data]
        end
    | _ => ret []
    end.

(** [datetime.now().astimezone()]. *)
Definition datetime_now : M Z :=
  fun w =>
    (Ok (clock P (clock_reads w)),
     World (requests w) (S (clock_reads w)) (trace w)).

(** The dictionary display that opens the loop body of [transform]. *)
Definition envelope (now : Z) (endpoint : string) (i : Z) (rec : gmap string value)
  : gmap string value :=
  list_to_map
    [("_source_id", py_or (get rec "id") (get rec "_id"));
     ("record_index", VInt i);
     ("endpoint", VStr (strip slash endpoint));
     ("ingestion_time", VTime now);
     ("schema_version", VFloat 1);
     ("source", VDict (list_to_map
                         [("api_base", VStr (BASE_URL G));
                          ("endpoint", VStr endpoint);
                          ("retrieved_at", VStr (isoformat P now))]));
     ("data", VDict rec)].

(** The endpoint-specific [if]/[elif] chain of [transform]. *)
Definition flatten (endpoint : string) (rec doc : gmap string value)
  : gmap string value :=
  if bool_decide (endpoint = "/languages") then
    <["iso_code" := get rec "iso6391"]> (<["name" := get rec "name"]> doc)
  else if bool_decide (endpoint = "/licenses") then
    <["license_url" := get rec "url"]> (<["license_name" := get rec "name"]> doc)
  else if bool_decide (endpoint = "/maintainers") then
    <["maintainer_url" := get rec "url"]> (<["maintainer_name" := get rec "name"]> doc)
  else if bool_decide (endpoint = "/software") then
    <["software_home" := get rec "homeUrl"]> (<["software_name" := get rec "name"]> doc)
  else if bool_decide (endpoint = "/syntaxes") then
    <["syntax_name" := get rec "name"]> doc
  else if bool_decide (endpoint = "/tags") then
    <["tag_name" := get rec "name"]> doc
  else doc.

(** The [for i, rec in enumerate(records, start=1)] loop of [transform];
    [i] is the index of the first record still to process. *)
Fixpoint transform_loop (now : Z) (endpoint : string) (i : Z)
    (records transformed : list (gmap string value)) : list (gmap string value) :=
  match records with
  | [] => transformed
  | rec :: rest =>
      let rec := clean_record rec in
      let doc := envelope now endpoint i rec in
      let doc := flatten endpoint rec doc in
      transform_loop now endpoint (i + 1) rest (transformed ++ [doc])
  end.

Definition transform (records : list (gmap string value)) (endpoint : string)
  : M (list (gmap string value)) :=
  log INFO "Transforming %d records from %s"
      [VInt (Z.of_nat (length records)); VStr endpoint];;
  let* now := datetime_now in
  ret (transform_loop now endpoint 1 records []).

End Connector.

(** ** Transform over a store of mutable objects

    The dictionaries and lists handled by [transform] are mutable objects
    that its caller still holds.  To observe what the function writes, this
    module runs the same statements over a store: a value is immediate or a
    reference to a list or dictionary object, allocation picks an unused
    location, and item assignment and [append] update the object in place.
    The clock reading is an argument and the log line is left out. *)

Module Heap.

Abbreviation loc := positive.

Inductive hval : Type :=
  | HNone
  | HBool (b : bool)
  | HInt (z : Z)
  | HFloat (q : Q)
  | HStr (s : string)
  | HTime (t : Z)
  | HRef (l : loc).

Inductive obj : Type :=
  | OList (items : list hval)
  | ODict (fields : gmap string hval).

(** [OutOfFuel] is the model's own outcome: the loop bound was too small. *)
Inductive outcome (A : Type) : Type :=
  | Done (a : A)
  | Raised (e : exn)
  | OutOfFuel.
Arguments Done {A} a.
Arguments Raised {A} e.
Arguments OutOfFuel {A}.

Definition H (A : Type) : Type := gmap loc obj -> outcome A * gmap loc obj.

Definition ret {A} (a : A) : H A := fun h => (Done a, h).

Definition bind {A B} (m : H A) (k : A -> H B) : H B :=
  fun h =>
    match m h with
    | (Done a, h') => k a h'
    | (Raised e, h') => (Raised e, h')
    | (OutOfFuel, h') => (OutOfFuel, h')
    end.

Declare Scope heap_scope.
Notation "'let*' x ':=' m 'in' k" := (bind m (fun x => k))
  (at level 10, x name, m at level 100, k at level 200) : heap_scope.
Notation "m ';;' k" := (bind m (fun _ => k))
  (at level 100, k at level 200, right associativity) : heap_scope.
Local Open Scope heap_scope.

(** A new object at a location not in use. *)
Definition alloc (o : obj) : H loc :=
  fun h => let l := fresh (dom h) in (Done l, <[l := o]> h).

(** The items of a list object; anything else is not a list.  The argument
    of [transform] is a list by its annotation and by what [extract]
    returns; other sized iterables are outside this model. *)
Definition as_list (v : hval) : H (list hval) :=
  fun h =>
    match v with
    | HRef l => match h !! l with
                | Some (OList items) => (Done items, h)
                | _ => (Raised TypeError, h)
                end
    | _ => (Raised TypeError, h)
    end.

(** The fields of a dictionary object; anything else has no [items]. *)
Definition as_dict (v : hval) : H (gmap string hval) :=
  fun h =>
    match v with
    | HRef l => match h !! l with
                | Some (ODict fields) => (Done fields, h)
                | _ => (Raised AttributeError, h)
                end
    | _ => (Raised AttributeError, h)
    end.

(** [doc[k] = v]. *)
Definition set_item (doc : loc) (k : string) (v : hval) : H unit :=
  fun h =>
    match h !! doc with
    | Some (ODict fields) => (Done tt, <[doc := ODict (<[k := v]> fields)]> h)
    | _ => (Raised TypeError, h)
    end.

(** [xs.append(v)]. *)
Definition append (xs : loc) (v : hval) : H unit :=
  fun h =>
    match h !! xs with
    | Some (OList items) => (Done tt, <[xs := OList (items ++ [v])]> h)
    | _ => (Raised AttributeError, h)
    end.

(** [v in [None, "", [], {}, "null"]]: equality with the five literals
    looks at [v] and, for a reference, at whether the object is an empty
    list or an empty dictionary. *)
Definition in_literals (h : gmap loc obj) (v : hval) : bool :=
  match v with
  | HNone => true
  | HStr s => bool_decide (s = "") || bool_decide (s = "null")
  | HRef l =>
      match h !! l with
      | Some (OList items) => match items with [] => true | _ => false end
      | Some (ODict fields) => bool_decide (fields = ∅)
      | None => false
      end
  | _ => false
  end.

Definition truthy (h : gmap loc obj) (v : hval) : bool :=
  match v with
  | HNone => false
  | HBool b => b
  | HInt z => negb (z =? 0)
  | HFloat q => negb (Qeq_bool q 0)
  | HStr s => negb (bool_decide (s = ""))
  | HTime _ => true
  | HRef l =>
      match h !! l with
      | Some (OList items) => match items with [] => false | _ => true end
      | Some (ODict fields) => negb (bool_decide (fields = ∅))
      | None => true
      end
  end.

Definition py_or (h : gmap loc obj) (a b : hval) : hval :=
  if truthy h a then a else b.

Definition get (d : gmap string hval) (k : string) : hval :=
  default HNone (d !! k).

(** The fields [clean_record] keeps. *)
Definition cleaned (h : gmap loc obj) (fields : gmap string hval)
  : gmap string hval :=
  filter (fun kv => in_literals h kv.2 = false) fields.

(** [clean_record]: the comprehension builds a new dictionary. *)
Definition clean_record (d : hval) : H loc :=
  let* fields := as_dict d in
  fun h => alloc (ODict (cleaned h fields)) h.

Section Transform.

Variable P : platform.
Variable G : globals.

Definition flatten (endpoint : string) (rec : gmap string hval) (doc : loc)
  : H unit :=
  if bool_decide (endpoint = "/languages") then
    set_item doc "name" (get rec "name");;
    set_item doc "iso_code" (get rec "iso6391")
  else if bool_decide (endpoint = "/licenses") then
    set_item doc "license_name" (get rec "name");;
    set_item doc "license_url" (get rec "url")
  else if bool_decide (endpoint = "/maintainers") then
    set_item doc "maintainer_name" (get rec "name");;
    set_item doc "maintainer_url" (get rec "url")
  else if bool_decide (endpoint = "/software") then
    set_item doc "software_name" (get rec "name");;
    set_item doc "software_home" (get rec "homeUrl")
  else if bool_decide (endpoint = "/syntaxes") then
    set_item doc "syntax_name" (get rec "name")
  else if bool_decide (endpoint = "/tags") then
    set_item doc "tag_name" (get rec "name")
  else ret tt.

(** The two dictionary displays of the loop body: the source block, and the
    document that refers to it and to the cleaned record. *)
Definition source_fields (now : Z) (endpoint : string) : gmap string hval :=
  list_to_map
    [("api_base", HStr (BASE_URL G));
     ("endpoint", HStr endpoint);
     ("retrieved_at", HStr (isoformat P now))].

Definition envelope_fields (source_id : hval) (now : Z) (endpoint : string)
    (i : Z) (source_l rec_l : loc) : gmap string hval :=
  list_to_map
    [("_source_id", source_id);
     ("record_index", HInt i);
     ("endpoint", HStr (strip slash endpoint));
     ("ingestion_time", HTime now);
     ("schema_version", HFloat 1);
     ("source", HRef source_l);
     ("data", HRef rec_l)].

(** The body of the loop for the record [item] with index [i]. *)
Definition body (now : Z) (endpoint : string) (i : Z) (item : hval)
    (transformed : loc) : H unit :=
  let* rec_l := clean_record item in
  let* rec := as_dict (HRef rec_l) in
  let* source_id := (fun h => (Done (py_or h (get rec "id") (get rec "_id")), h)) in
  let* source_l := alloc (ODict (source_fields now endpoint)) in
  let* doc_l :=
    alloc (ODict (envelope_fields source_id now endpoint i source_l rec_l)) in
  flatten endpoint rec doc_l;;
  append transformed (HRef doc_l).

(** The [for] loop: the iterator reads position [k] of the list as it is
    in the store at that moment and stops when there is none. *)
Fixpoint loop (fuel : nat) (now : Z) (endpoint : string) (k : nat) (i : Z)
    (records : hval) (transformed : loc) : H unit :=
  let* items := as_list records in
  match items !! k with
  | None => ret tt
  | Some item =>
      match fuel with
      | O => fun h => (OutOfFuel, h)
      | S fuel' =>
          body now endpoint i item transformed;;
          loop fuel' now endpoint (S k) (i + 1) records transformed
      end
  end.

Definition transform (records : hval) (endpoint : string) (now : Z) : H loc :=
  let* items := as_list records in
  let* transformed := alloc (OList []) in
  loop (length items) now endpoint 0 1 records transformed;;
  ret transformed.

End Transform.

(** The fields of a document once the endpoint-specific assignments of
    [flatten] have been made. *)
Definition flattened (endpoint : string) (rec fields : gmap string hval)
  : gmap string hval :=
  if bool_decide (endpoint = "/languages") then
    <["iso_code" := get rec "iso6391"]> (<["name" := get rec "name"]> fields)
  else if bool_decide (endpoint = "/licenses") then
    <["license_url" := get rec "url"]> (<["license_name" := get rec "name"]> fields)
  else if bool_decide (endpoint = "/maintainers") then
    <["maintainer_url" := get rec "url"]> (<["maintainer_name" := get rec "name"]> fields)
  else if bool_decide (endpoint = "/software") then
    <["software_home" := get rec "homeUrl"]> (<["software_name" := get rec "name"]> fields)
  else if bool_decide (endpoint = "/syntaxes") then
    <["syntax_name" := get rec "name"]> fields
  else if bool_decide (endpoint = "/tags") then
    <["tag_name" := get rec "name"]> fields
  else fields.

(** [repr h v x]: in the store [h] the value [v] denotes the JSON value
    [x], references being followed to the objects they point to. *)
Inductive repr (h : gmap loc obj) : hval -> value -> Prop :=
  | repr_None : repr h HNone VNone
  | repr_Bool b : repr h (HBool b) (VBool b)
  | repr_Int z : repr h (HInt z) (VInt z)
  | repr_Float q : repr h (HFloat q) (VFloat q)
  | repr_Str s : repr h (HStr s) (VStr s)
  | repr_Time t : repr h (HTime t) (VTime t)
  | repr_List l items xs :
      h !! l = Some (OList items) ->
      Forall2 (repr h) items xs ->
      repr h (HRef l) (VList xs)
  | repr_Dict l fields d :
      h !! l = Some (ODict fields) ->
      (forall k, option_Forall2 (repr h) (fields !! k) (d !! k)) ->
      repr h (HRef l) (VDict d).

(** The fields of a dictionary object denote the mapping [d]. *)
Definition repr_fields (h : gmap loc obj) (fields : gmap string hval)
    (d : gmap string value) : Prop :=
  forall k, option_Forall2 (repr h) (fields !! k) (d !! k).

(** Every reference held in [fields] points to an object of the store. *)
Definition closed (h : gmap loc obj) (fields : gmap string hval) : Prop :=
  forall k l, fields !! k = Some (HRef l) -> is_Some (h !! l).

(** [records] is a list object whose items are dictionary objects without
    dangling references: the shape the annotation [List[dict]] promises. *)
Definition list_of_dicts (h : gmap loc obj) (records : hval)
    (items : list hval) : Prop :=
  exists rl,
    records = HRef rl /\ h !! rl = Some (OList items) /\
    forall j item, items !! j = Some item ->
      exists li fields,
        item = HRef li /\ h !! li = Some (ODict fields) /\ closed h fields.

(** A store with a list of two records, the second holding a nested list. *)
Definition sample_store : gmap loc obj :=
  list_to_map
    [(1%positive, OList [HRef 2; HRef 3]);
     (2%positive, ODict (list_to_map [("id", HInt 7); ("name", HStr "")]));
     (3%positive, ODict (list_to_map [("id", HInt 8); ("tags", HRef 4)]));
     (4%positive, OList [])].

End Heap.

(** ** Loading and the runner *)

(** [transform] as [run_etl] calls it, on the list [extract] returned: the
    items of that list need not be mappings, and [clean_record] calls
    [items] on each, which only a mapping has. *)
Section TransformValues.

Variable P : platform.
Variable G : globals.

Fixpoint transform_values_loop (now : Z) (endpoint : string) (i : Z)
    (records : list value) (transformed : list (gmap string value))
  : result (list (gmap string value)) :=
  match records with
  | [] => Ok transformed
  | VDict rec :: rest =>
      let rec := clean_record rec in
      let doc := envelope P G now endpoint i rec in
      let doc := flatten endpoint rec doc in
      transform_values_loop now endpoint (i + 1) rest (transformed ++ [doc])
  | _ :: _ => Raise AttributeError
  end.

Definition transform_values (records : list value) (endpoint : string)
  : M (list (gmap string value)) :=
  log INFO "Transforming %d records from %s"
      [VInt (Z.of_nat (length records)); VStr endpoint];;
  let* now := datetime_now P in
  fun w => (transform_values_loop now endpoint 1 records [], w).

End TransformValues.

(** [ENDPOINTS], the endpoints of a run without a selection. *)
Definition ENDPOINTS : list string :=
  ["/languages"; "/licenses"; "/maintainers"; "/software"; "/syntaxes"; "/tags"].

(** [ep.startswith("/")]. *)
Definition startswith_slash (ep : string) : bool :=
  match ep with
  | String a _ => Ascii.eqb a slash
  | EmptyString => false
  end.

(** One element of the comprehension of the entry point:
    [ep if ep.startswith("/") else f"/{ep}"]. *)
Definition normalized (ep : string) : string :=
  if startswith_slash ep then ep else "/" +:+ ep.

Module Run.

(** The document store.  [insert_many n collection docs] is what the [n]-th
    bulk insert of the run does: the identifiers assigned, or the exception
    leaving [db[collection]] or [insert_many]. *)
Record store : Type := Store {
  insert_many : nat -> string -> list (gmap string value) -> result (list value);
}.

(** The state of a run: the [world] of the fetch and transform steps, and
    the bulk inserts attempted so far, each with its collection and batch. *)
Record run_world : Type := RunWorld {
  rw_world : world;
  rw_inserts : list (string * list (gmap string value));
}.

Definition R (A : Type) : Type := run_world -> result A * run_world.

Definition ret {A} (a : A) : R A := fun s => (Ok a, s).

Definition bind {A B} (m : R A) (k : A -> R B) : R B :=
  fun s =>
    match m s with
    | (Ok a, s') => k a s'
    | (Raise e, s') => (Raise e, s')
    end.

Declare Scope run_scope.
Notation "'let*' x ':=' m 'in' k" := (bind m (fun x => k))
  (at level 10, x name, m at level 100, k at level 200) : run_scope.
Notation "m ';;' k" := (bind m (fun _ => k))
  (at level 100, k at level 200, right associativity) : run_scope.
Local Open Scope run_scope.

(** A fetch or transform step inside a run. *)
Definition lift {A} (m : M A) : R A :=
  fun s =>
    match m (rw_world s) with
    | (r, w') => (r, RunWorld w' (rw_inserts s))
    end.

Section Runner.

Variable P : platform.
Variable G : globals.
Variable S : store.

(** [db[collection_name].insert_many(docs)]. *)
Definition col_insert_many (collection : string) (docs : list (gmap string value))
  : R (list value) :=
  fun s =>
    (insert_many S (length (rw_inserts s)) collection docs,
     RunWorld (rw_world s) (rw_inserts s ++ [(collection, docs)])).

(** [load].  The [except Exception] clause also catches the [IndexError] of
    [result.inserted_ids[0]] on an empty identifier list. *)
Definition load (docs : list (gmap string value)) (collection_name : string)
  : R unit :=
  match docs with
  | [] => lift (log INFO "No documents to load into %s" [VStr collection_name])
  | _ :: _ =>
      fun s =>
        match col_insert_many collection_name docs s with
        | (Ok (first_id :: ids), s') =>
            lift (log INFO
                      "Inserted %d documents into %s (sample inserted id: %s)"
                      [VInt (Z.of_nat (length (first_id :: ids)));
                       VStr collection_name; first_id]) s'
        | (Ok [], s') =>
            lift (log ERROR "Failed to insert into %s: %s" [VStr collection_name]) s'
        | (Raise e, s') =>
            lift (log ERROR "Failed to insert into %s: %s" [VStr collection_name]) s'
        end
  end.

(** The [try] block of [run_etl] for one endpoint. *)
Definition process (ep : string) : R unit :=
  let* raw := lift (extract P G ep) in
  let* transformed := lift (transform_values P G raw ep) in
  let collection := endpoint_to_collection ep in
  load transformed collection;;
  lift (sleep 0.2).

(** The [for ep in endpoints] loop of [run_etl] with its [except Exception]
    clause; every [exn] of the model stands for a subclass of [Exception],
    so the clause catches all of them. *)
Fixpoint run_endpoints (endpoints : list string) : R unit :=
  match endpoints with
  | [] => ret tt
  | ep :: rest =>
      fun s =>
        match process ep s with
        | (Ok _, s') => run_endpoints rest s'
        | (Raise e, s') =>
            (lift (log ERROR "Unhandled error processing %s: %s" [VStr ep]);;
             run_endpoints rest) s'
        end
  end.

(** [run_etl]: a missing or empty selection means [ENDPOINTS]. *)
Definition run_etl (selected_endpoints : option (list string)) : R unit :=
  let endpoints :=
    match selected_endpoints with
    | Some (ep :: rest) => ep :: rest
    | _ => ENDPOINTS
    end in
  run_endpoints endpoints.

(** The entry point, given the value of [--endpoints] ([None] when the
    option is absent). *)
Definition main (endpoints : option (list string)) : R unit :=
  match endpoints with
  | Some (ep :: rest) => run_etl (Some (normalized <$> (ep :: rest)))
  | _ => run_etl None
  end.

End Runner.

Definition run_world0 : run_world := RunWorld world0 [].

End Run.

(** ** Specification vocabulary *)

(** The values the specification lists as empty: null, the empty string,
    the empty sequence, the empty mapping and the literal string "null". *)
Definition removable (v : value) : Prop :=
  v = VNone \/ v = VStr "" \/ v = VList [] \/ v = VDict ∅ \/ v = VStr "null".

(** A run of [n] path separators. *)
Fixpoint slashes (n : nat) : string :=
  match n with
  | O => EmptyString
  | S n' => String slash (slashes n')
  end.

(** The GET events of a trace, in order. *)
Definition gets (t : list event) : list request :=
  omap (fun e => match e with EvGet r => Some r | _ => None end) t.

(** A transport-level failure of one attempt: the two exception classes
    [safe_get_json] catches. *)
Definition transport_failure (r : result value) : Prop :=
  r = Raise Timeout \/ r = Raise RequestException.

(** The durations slept in a trace, in order. *)
Definition sleeps (t : list event) : list Q :=
  omap (fun e => match e with EvSleep q => Some q | _ => None end) t.

(** The endpoints whose extraction a trace announces, in order. *)
Definition extracting (t : list event) : list string :=
  omap (fun e => match e with
                 | EvLog INFO msg [VStr ep] =>
                     if bool_decide (msg = "Extracting %s") then Some ep else None
                 | _ => None
                 end) t.

(** A server from which no exception other than a transport failure ever
    reaches [safe_get_json]. *)
Definition transport_only (P : platform) : Prop :=
  forall n r, (exists v, net P n r = Ok v) \/ transport_failure (net P n r).

(** [w'] continues [w] with the events [new]. *)
Definition continues (w w' : world) (new : list event) : Prop :=
  trace w' = trace w ++ new /\
  requests w' = (requests w + length (gets new))%nat /\
  (clock_reads w <= clock_reads w')%nat.

(** No separator occurs in [s]. *)
Fixpoint no_slash (s : string) : Prop :=
  match s with
  | EmptyString => True
  | String a s' => a <> slash /\ no_slash s'
  end.

(** The keys every document carries. *)
Definition envelope_keys : list string :=
  ["_source_id"; "record_index"; "endpoint"; "ingestion_time";
   "schema_version"; "source"; "data"].

(** The convenience fields of an endpoint: each destination key of the
    document with the key of the record it is read from. *)
Definition convenience_fields (endpoint : string) : list (string * string) :=
  if bool_decide (endpoint = "/languages") then
    [("name", "name"); ("iso_code", "iso6391")]
  else if bool_decide (endpoint = "/licenses") then
    [("license_name", "name"); ("license_url", "url")]
  else if bool_decide (endpoint = "/maintainers") then
    [("maintainer_name", "name"); ("maintainer_url", "url")]
  else if bool_decide (endpoint = "/software") then
    [("software_name", "name"); ("software_home", "homeUrl")]
  else if bool_decide (endpoint = "/syntaxes") then [("syntax_name", "name")]
  else if bool_decide (endpoint = "/tags") then [("tag_name", "name")]
  else [].

(** The events one call of [safe_get_json] can add to the trace. *)
Definition fetch_event (url : string) (params timeout : value) (e : event) : Prop :=
  e = EvGet (Request url params timeout) \/
  (exists a, e = EvLog WARNING "Timeout while fetching {url} (attempt {attempt+1}/3)"
                       [VStr url; VInt a]) \/
  e = EvLog WARNING "Error fetching {url}: {e}" [VStr url] \/
  e = EvSleep 2 \/
  e = EvLog ERROR "Failed to fetch {url} after 3 attempts — skipping." [VStr url].

(** An event that does not announce an extraction. *)
Definition quiet (e : event) : Prop := extracting [e] = [].

(** [s'] continues the run [s] with the events [new] and the bulk inserts
    [calls]. *)
Definition run_continues (s s' : Run.run_world) (new : list event)
    (calls : list (string * list (gmap string value))) : Prop :=
  continues (Run.rw_world s) (Run.rw_world s') new /\
  Run.rw_inserts s' = Run.rw_inserts s ++ calls.

(** The endpoints a call of [run_etl] goes through. *)
Definition selected_or_default (selected_endpoints : option (list string))
  : list string :=
  match selected_endpoints with
  | Some (ep :: rest) => ep :: rest
  | _ => ENDPOINTS
  end.

(** ** Sample inputs *)

Definition sample_record : gmap string value :=
  list_to_map
    [("id", VInt 0); ("name", VStr ""); ("active", VBool false);
     ("tags", VList []); ("meta", VDict (list_to_map [("inner", VNone)]));
     ("note", VStr "null"); ("url", VNone)].

(** The configuration when the environment sets nothing. *)
Definition default_globals : globals :=
  Globals "https://api.filterlists.com" "mongodb://localhost:27017"
          "filterlists_db" (VInt 10).

(** [str] on the values the samples format; other values are not used. *)
Definition sample_str (v : value) : string :=
  match v with
  | VInt z => pretty z
  | VStr s => s
  | VNone => "None"
  | VBool true => "True"
  | VBool false => "False"
  | _ => ""
  end.

Definition sample_isoformat (t : Z) : string := "t=" +:+ pretty t.

Definition sample_clock (n : nat) : Z := 1762128000000000 + Z.of_nat n.

Definition list_item_42_fields : gmap string value :=
  list_to_map [("id", VInt 42); ("name", VStr "EasyList")].

Definition list_item_42 : value := VDict list_item_42_fields.

Definition list_detail_42 : value :=
  VDict (list_to_map [("id", VInt 42); ("name", VStr "EasyList");
                      ("description", VStr "Primary filter list")]).

(** A server whose list view answers and whose detail view times out. *)
Definition detail_down : platform :=
  Platform (fun n _ => match n with
                       | O => Ok (VList [list_item_42])
                       | _ => Raise Timeout
                       end)
           sample_clock sample_isoformat sample_str.

(** A server that answers by URL. *)
Definition catalogue : platform :=
  Platform (fun _ r =>
              if bool_decide (req_url r = "https://api.filterlists.com/lists")
              then Ok (VList [list_item_42])
              else if bool_decide (req_url r = "https://api.filterlists.com/lists/42")
              then Ok list_detail_42
              else if bool_decide (req_url r = "https://api.filterlists.com/tags")
              then Ok (VDict (list_to_map
                         [("data", VList [VDict (list_to_map [("id", VInt 1)])])]))
              else Raise RequestException)
           sample_clock sample_isoformat sample_str.

(** A server that is unreachable. *)
Definition unreachable : platform :=
  Platform (fun n _ => if Nat.even n then Raise Timeout else Raise RequestException)
           sample_clock sample_isoformat sample_str.

(** An environment that configures a timeout of 30 seconds. *)
Definition env_timeout_30 : gmap string string :=
  {["REQUEST_TIMEOUT" := "30"]}.

(** A record whose identifier is zero. *)
Definition record_id_zero : gmap string value :=
  list_to_map [("id", VInt 0); ("name", VStr "first")].

(** A record whose values are all removed by the cleaning. *)
Definition record_all_blank : gmap string value :=
  list_to_map [("note", VStr "null"); ("url", VNone); ("tags", VList [])].

(** A language record whose name and code are empty. *)
Definition language_blank : gmap string value :=
  list_to_map [("id", VInt 2); ("name", VStr ""); ("iso6391", VNone)].

(** A server that times out once and then answers. *)
Definition flaky : platform :=
  Platform (fun n _ => match n with
                       | O => Raise Timeout
                       | _ => Ok (VList [list_item_42])
                       end)
           sample_clock sample_isoformat sample_str.

(** A list view whose items carry no identifier. *)
Definition items_without_id : list value :=
  [VDict (list_to_map [("name", VStr "a")]);
   VDict (list_to_map [("id", VNone); ("name", VStr "b")])].

(** A store that accepts every batch, and one that refuses every batch. *)
Definition accepting : Run.store :=
  Run.Store (fun n _ docs => Ok (VInt <$> seqZ (Z.of_nat n) (Z.of_nat (length docs)))).

Definition refusing : Run.store :=
  Run.Store (fun _ _ _ => Raise (OtherError "BulkWriteError")).

(** * Properties *)

Local Arguments String.append !_ _ : simpl nomatch.

Ltac run_effects :=
  unfold bind, log, sleep, emit, ret, raise, session_get; cbn.

(** ** Python equality against the literals of [clean_record] *)

Lemma py_eq_None (v : value) : py_eq v VNone = true <-> v = VNone.
Proof. destruct v as [| | | | | |xs|d]; cbn; split; try done; destruct xs; done. Qed.

Lemma py_eq_VStr (v : value) (s : string) : py_eq v (VStr s) = true <-> v = VStr s.
Proof.
  destruct v as [| | | |t| |xs|d]; cbn; split; try done.
  - intros H. apply bool_decide_eq_true in H. by subst.
  - intros [= ->]. by apply bool_decide_eq_true.
Qed.

Lemma py_eq_nil (v : value) : py_eq v (VList []) = true <-> v = VList [].
Proof.
  destruct v as [| | | | | |xs|d]; cbn; split; try done; destruct xs; done.
Qed.

Lemma py_eq_empty (v : value) : py_eq v (VDict ∅) = true <-> v = VDict ∅.
Proof.
  destruct v as [| | | | | |xs|d]; cbn; split; try done.
  - intros [Hd _]%andb_prop. apply bool_decide_eq_true in Hd.
    rewrite dom_empty_L in Hd. apply dom_empty_inv_L in Hd. by subst.
  - intros [= ->]. reflexivity.
Qed.

Lemma py_in_removable (v : value) :
  py_in v [VNone; VStr ""; VList []; VDict ∅; VStr "null"] = true <-> removable v.
Proof.
  unfold py_in, removable. cbn [existsb]. rewrite !orb_true_iff.
  rewrite py_eq_None, !py_eq_VStr, py_eq_nil, py_eq_empty.
  intuition discriminate.
Qed.

(** ** Cleaning *)

Lemma removable_dec (v : value) : removable v \/ ~ removable v.
Proof.
  rewrite <- py_in_removable.
  destruct (py_in v _); [by left | by right].
Qed.

Lemma clean_record_lookup_keep (d : gmap string value) (k : string) (v : value) :
  d !! k = Some v -> ~ removable v -> clean_record d !! k = Some v.
Proof.
  intros Hk Hv. unfold clean_record. apply map_lookup_filter_Some. split; [done|].
  rewrite <- py_in_removable in Hv. by apply not_true_is_false.
Qed.

Lemma clean_record_lookup_drop (d : gmap string value) (k : string) (v : value) :
  d !! k = Some v -> removable v -> clean_record d !! k = None.
Proof.
  intros Hk Hv. unfold clean_record. apply map_lookup_filter_None. right.
  intros v' Hk' Hin. rewrite Hk in Hk'. injection Hk' as <-.
  cbn [snd] in Hin. apply py_in_removable in Hv. congruence.
Qed.

Lemma clean_record_lookup_absent (d : gmap string value) (k : string) :
  d !! k = None -> clean_record d !! k = None.
Proof. intros Hk. unfold clean_record. apply map_lookup_filter_None. by left. Qed.

(** C4.  [clean_record] removes exactly the keys whose value is null, the
    empty string, the empty sequence, the empty mapping or the string
    "null": such a key is absent from the result, every other key keeps its
    value unchanged, and no key is added.  Zero and false are not among the
    removed values, and neither is a non-empty mapping or sequence whatever
    it contains, so the cleaning does not descend into nested values. *)
Theorem clean_record_removes_exactly_empty_values :
  forall (d : gmap string value) (k : string),
    match d !! k with
    | None => clean_record d !! k = None
    | Some v =>
        (removable v -> clean_record d !! k = None) /\
        (~ removable v -> clean_record d !! k = Some v) /\
        (v = VInt 0 \/ v = VBool false \/
         (exists inner, v = VDict inner /\ inner <> ∅) \/
         (exists items, v = VList items /\ items <> []) ->
         clean_record d !! k = Some v)
    end.
Proof.
  intros d k. destruct (d !! k) as [v|] eqn:Hk.
  - split; [|split].
    + by apply clean_record_lookup_drop.
    + by apply clean_record_lookup_keep.
    + intros Hv. apply clean_record_lookup_keep; [done|].
      unfold removable.
      destruct Hv as [-> | [-> | [(inner & -> & Hne) | (items & -> & Hne)]]];
        intros [H | [H | [H | [H | H]]]]; try discriminate H.
      * injection H as ->. by apply Hne.
      * injection H as ->. by apply Hne.
  - by apply clean_record_lookup_absent.
Qed.

Lemma clean_record_removes_exactly_empty_values_witness :
  clean_record sample_record !! "name" = None /\
  clean_record sample_record !! "id" = Some (VInt 0) /\
  clean_record sample_record !! "meta" = Some (VDict (list_to_map [("inner", VNone)])).
Proof.
  split; [|split].
  - apply (clean_record_removes_exactly_empty_values sample_record "name").
    right; left; reflexivity.
  - apply (clean_record_removes_exactly_empty_values sample_record "id").
    left; reflexivity.
  - apply (clean_record_removes_exactly_empty_values sample_record "meta").
    right; right; left. eexists; split; [reflexivity|]. intros H. discriminate H.
Defined.

(** ** Collection names *)

Lemma slash_eqb (a : ascii) : Ascii.eqb a slash = true <-> a = slash.
Proof. apply Ascii.eqb_eq. Qed.

Lemma lstrip_slashes (n : nat) (s : string) :
  lstrip slash (slashes n +:+ s) = lstrip slash s.
Proof. induction n as [|n IH]; [done|]. cbn. exact IH. Qed.

Lemma lstrip_no_leading (core t : string) :
  (forall s', core <> String slash s') -> core <> "" ->
  lstrip slash (core +:+ t) = core +:+ t.
Proof.
  intros Hlead Hne. destruct core as [|a core]; [done|]. cbn.
  destruct (Ascii.eqb a slash) eqn:E; [|done].
  apply slash_eqb in E. subst a. by destruct (Hlead core).
Qed.

Lemma rstrip_slashes (m : nat) : rstrip slash (slashes m) = "".
Proof. induction m as [|m IH]; [done|]. cbn. by rewrite IH. Qed.

Lemma rstrip_app_slashes (core : string) (m : nat) :
  rstrip slash (core +:+ slashes m) = rstrip slash core.
Proof.
  induction core as [|a core IH]; cbn.
  - apply rstrip_slashes.
  - by rewrite IH.
Qed.

Lemma rstrip_no_trailing (core : string) :
  (forall s', core <> s' +:+ "/") -> rstrip slash core = core.
Proof.
  induction core as [|a core IH]; intros Htrail; [done|]. cbn.
  destruct core as [|b core].
  - cbn. destruct (Ascii.eqb a slash) eqn:E; [|done].
    apply slash_eqb in E. subst a. by destruct (Htrail "").
  - rewrite IH; [done|]. intros s' Hs'. apply (Htrail (String a s')).
    cbn. by rewrite Hs'.
Qed.

Lemma strip_decomposed (n m : nat) (core : string) :
  (forall s', core <> String slash s') -> (forall s', core <> s' +:+ "/") ->
  strip slash (slashes n +:+ core +:+ slashes m) = core.
Proof.
  intros Hlead Htrail. unfold strip. rewrite lstrip_slashes.
  destruct (decide (core = "")) as [->|Hne].
  - cbn. assert (lstrip slash (slashes m) = "") as ->; [|done].
    clear. induction m as [|m IH]; [done|]. cbn. exact IH.
  - rewrite lstrip_no_leading by done.
    rewrite rstrip_app_slashes. by apply rstrip_no_trailing.
Qed.

Lemma replace_slash_length (s : string) :
  String.length (replace slash "_" s) = String.length s.
Proof.
  induction s as [|a s IH]; [done|]. cbn.
  destruct (Ascii.eqb a slash); cbn; by rewrite IH.
Qed.

Lemma replace_slash_get (s : string) (i : nat) :
  String.get i (replace slash "_" s) =
  (fun c => if Ascii.eqb c slash then "_"%char else c) <$> String.get i s.
Proof.
  revert i. induction s as [|a s IH]; intros i; [done|]. cbn.
  destruct (Ascii.eqb a slash) eqn:E; cbn; destruct i as [|i]; cbn;
    rewrite ?E, ?IH; done.
Qed.

Lemma lstrip_prefix (e : string) :
  exists n, e = slashes n +:+ lstrip slash e /\
            forall s', lstrip slash e <> String slash s'.
Proof.
  induction e as [|a e (n & He & Hlead)].
  - by exists O.
  - cbn. destruct (Ascii.eqb a slash) eqn:E.
    + apply slash_eqb in E. subst a. exists (S n). cbn. by rewrite <- He.
    + exists O. split; [done|]. intros s' [= -> _]. by rewrite Ascii.eqb_refl in E.
Qed.

Lemma rstrip_suffix (s : string) :
  exists m, s = rstrip slash s +:+ slashes m /\
            forall s', rstrip slash s <> s' +:+ "/".
Proof.
  induction s as [|a s (m & Hs & Htrail)].
  - exists O. split; [done|]. by intros [|? ?].
  - cbn. destruct (rstrip slash s) as [|b r] eqn:Er.
    + destruct (Ascii.eqb a slash) eqn:E.
      * apply slash_eqb in E. subst a. exists (S m). cbn. split; [by rewrite Hs|].
        by intros [|? ?].
      * exists m. cbn. split; [by rewrite Hs|].
        intros [|c [|? ?]] H; cbn in H; simplify_eq.
    + exists m. cbn. split; [by rewrite Hs|].
      intros [|c t]; cbn; [done|]. intros [= _ Ht]. by apply (Htrail t).
Qed.

Lemma rstrip_keeps_lead (s : string) :
  (forall s', s <> String slash s') ->
  forall s', rstrip slash s <> String slash s'.
Proof.
  intros Hlead s'. destruct s as [|a s]; [done|]. cbn.
  assert (a <> slash) as Ha by (intros ->; by destruct (Hlead s)).
  destruct (rstrip slash s); [destruct (Ascii.eqb a slash)|]; congruence.
Qed.

(** Every endpoint string is a run of separators, a core that neither
    starts nor ends with a separator, and another run of separators. *)
Lemma endpoint_decomposition (e : string) :
  exists n core m,
    e = slashes n +:+ core +:+ slashes m /\
    (forall s', core <> String slash s') /\ (forall s', core <> s' +:+ "/").
Proof.
  destruct (lstrip_prefix e) as (n & He & Hlead).
  destruct (rstrip_suffix (lstrip slash e)) as (m & Hs & Htrail).
  exists n, (strip slash e), m. unfold strip. split; [|split].
  - by rewrite <- Hs.
  - by apply rstrip_keeps_lead.
  - done.
Qed.

(** C8.  [endpoint_to_collection] is a function of its argument alone:
    "/tags" gives "tags_raw", and "/" and the empty endpoint give
    "root_raw".  In general, writing the endpoint as separators, a core
    without leading or trailing separator, and separators again, the
    collection name is the core with every inner separator turned into "_"
    followed by "_raw", and "root_raw" when the core is empty. *)
Theorem endpoint_to_collection_strips_joins_and_suffixes :
  endpoint_to_collection "/tags" = "tags_raw" /\
  endpoint_to_collection "/" = "root_raw" /\
  endpoint_to_collection "" = "root_raw" /\
  forall (n m : nat) (core : string),
    (forall s', core <> String slash s') ->
    (forall s', core <> s' +:+ "/") ->
    exists name,
      endpoint_to_collection (slashes n +:+ core +:+ slashes m) = name +:+ "_raw" /\
      (core = "" -> name = "root") /\
      (core <> "" ->
       String.length name = String.length core /\
       forall i, String.get i name =
                 (fun c => if Ascii.eqb c slash then "_"%char else c)
                   <$> String.get i core).
Proof.
  do 3 (split; [reflexivity|]).
  intros n m core Hlead Htrail. unfold endpoint_to_collection.
  rewrite strip_decomposed by done.
  destruct core as [|a core].
  - exists "root". cbn. repeat split; done.
  - exists (replace slash "_" (String a core)).
    rewrite bool_decide_eq_false_2.
    + repeat split; try done.
      * apply replace_slash_length.
      * intros i. apply replace_slash_get.
    + intros H. apply (f_equal String.length) in H.
      by rewrite replace_slash_length in H.
Qed.

Lemma endpoint_to_collection_strips_joins_and_suffixes_witness :
  exists name,
    endpoint_to_collection "//lists/42/" = name +:+ "_raw" /\
    String.length name = 8%nat.
Proof.
  destruct endpoint_to_collection_strips_joins_and_suffixes as (_ & _ & _ & Hgen).
  destruct (Hgen 2%nat 1%nat "lists/42") as (name & Hname & _ & Hcore).
  - intros s' H. discriminate H.
  - intros [|? [|? [|? [|? [|? [|? [|? [|? [|? ?]]]]]]]]] H; discriminate H.
  - exists name. split; [exact Hname|]. apply Hcore. intros H. discriminate H.
Defined.

(** ** Transform *)

Lemma flatten_lookup_envelope_key (endpoint : string) (rec doc : gmap string value)
    (k : string) :
  k ∈ ["_source_id"; "record_index"; "endpoint"; "ingestion_time";
       "schema_version"; "source"; "data"] ->
  flatten endpoint rec doc !! k = doc !! k.
Proof.
  intros Hk. unfold flatten.
  repeat case_bool_decide; try done;
    rewrite ?lookup_insert_ne; try done;
    intros <-; repeat (apply elem_of_cons in Hk as [Hk|Hk]; [discriminate Hk|]);
    by apply elem_of_nil in Hk.
Qed.

Lemma transform_loop_length (P : platform) (G : globals) (now : Z)
    (endpoint : string) (records : list (gmap string value)) :
  forall i transformed,
    length (transform_loop P G now endpoint i records transformed) =
    (length transformed + length records)%nat.
Proof.
  induction records as [|rec rest IH]; intros i transformed; cbn.
  - lia.
  - rewrite IH, length_app. cbn. lia.
Qed.

Lemma transform_loop_lookup_old (P : platform) (G : globals) (now : Z)
    (endpoint : string) (records : list (gmap string value)) :
  forall i transformed n doc,
    transformed !! n = Some doc ->
    transform_loop P G now endpoint i records transformed !! n = Some doc.
Proof.
  induction records as [|rec rest IH]; intros i transformed n doc Hn; cbn.
  - done.
  - apply IH. by apply lookup_app_l_Some.
Qed.

Lemma transform_loop_lookup (P : platform) (G : globals) (now : Z)
    (endpoint : string) (records : list (gmap string value)) :
  forall i transformed n rec,
    records !! n = Some rec ->
    transform_loop P G now endpoint i records transformed
      !! (length transformed + n)%nat =
    Some (flatten endpoint (clean_record rec)
            (envelope P G now endpoint (i + Z.of_nat n) (clean_record rec))).
Proof.
  induction records as [|r rest IH]; intros i transformed n rec Hn; [done|].
  cbn [transform_loop]. destruct n as [|n].
  - injection Hn as ->. apply transform_loop_lookup_old.
    rewrite Nat.add_0_r, Z.add_0_r. apply list_lookup_middle. done.
  - cbn in Hn. specialize (IH (i + 1) (transformed ++
      [flatten endpoint (clean_record r)
         (envelope P G now endpoint i (clean_record r))]) n rec Hn).
    rewrite length_app in IH. cbn [length] in IH.
    replace (length transformed + S n)%nat with (length transformed + 1 + n)%nat by lia.
    rewrite IH. do 3 f_equal. lia.
Qed.

(** C9.  [transform] returns normally with exactly one document per input
    record, whatever the records hold: the result is as long as the input,
    and position [i] holds the document built from the [i]-th record, that
    is the envelope of the cleaned record with the convenience fields of
    the endpoint.  It carries the seven envelope keys and the cleaned record
    as [data]; an empty record, or one whose keys are all removed by the
    cleaning, still yields its document, with an empty [data]. *)
Theorem transform_one_document_per_record :
  forall (P : platform) (G : globals) (records : list (gmap string value))
         (endpoint : string) (w : world),
    exists docs w',
      transform P G records endpoint w = (Ok docs, w') /\
      length docs = length records /\
      forall (i : nat) (rec : gmap string value),
        records !! i = Some rec ->
        exists doc,
          docs !! i = Some doc /\
          doc = flatten endpoint (clean_record rec)
                  (envelope P G (clock P (clock_reads w)) endpoint
                            (Z.of_nat i + 1) (clean_record rec)) /\
          (forall k, k ∈ envelope_keys -> is_Some (doc !! k)) /\
          doc !! "data" = Some (VDict (clean_record rec)) /\
          (clean_record rec = ∅ -> doc !! "data" = Some (VDict ∅)).
Proof.
  intros P G records endpoint w. eexists _, _. split; [reflexivity|].
  split; [by rewrite transform_loop_length|].
  intros i rec Hi. eexists. split.
  { apply (transform_loop_lookup P G _ endpoint records 1 [] i rec Hi). }
  replace (1 + Z.of_nat i) with (Z.of_nat i + 1) by lia.
  split; [reflexivity|].
  assert (Hdata : forall r : gmap string value,
            flatten endpoint r
              (envelope P G (clock P (clock_reads w)) endpoint (Z.of_nat i + 1) r)
              !! "data" = Some (VDict r)).
  { intros r. rewrite flatten_lookup_envelope_key by set_solver. reflexivity. }
  split; [|split; [apply Hdata|intros ->; apply Hdata]].
  intros k Hk. rewrite flatten_lookup_envelope_key by exact Hk.
  unfold envelope_keys in Hk.
  repeat (apply elem_of_cons in Hk as [->|Hk]; [by eexists|]).
  by apply elem_of_nil in Hk.
Qed.

Lemma transform_one_document_per_record_witness :
  exists docs w' doc,
    transform catalogue default_globals [∅; record_all_blank] "/tags" world0
      = (Ok docs, w') /\
    length docs = 2%nat /\
    docs !! 1%nat = Some doc /\
    doc !! "data" = Some (VDict ∅).
Proof.
  destruct (transform_one_document_per_record
              catalogue default_globals [∅; record_all_blank] "/tags" world0)
    as (docs & w' & Hrun & Hlen & Hdocs).
  destruct (Hdocs 1%nat record_all_blank eq_refl)
    as (doc & Hdoc & _ & _ & _ & Hempty).
  exists docs, w', doc. split; [exact Hrun|]. split; [exact Hlen|].
  split; [exact Hdoc|]. apply Hempty. vm_compute. reflexivity.
Defined.

(** C6.  [transform] reads the clock once.  The document at position [i]
    (from 0) of its result carries [record_index] [i + 1], the reading as
    [ingestion_time], the reading's ISO form as [retrieved_at] of its
    source block, and the cleaned [i]-th input record as [data]: the indices
    run 1..n in input order and the whole batch shares one timestamp. *)
Theorem transform_indices_contiguous_and_time_shared :
  forall (P : platform) (G : globals) (records : list (gmap string value))
         (endpoint : string) (w : world),
    exists docs w',
      transform P G records endpoint w = (Ok docs, w') /\
      clock_reads w' = S (clock_reads w) /\
      length docs = length records /\
      forall (i : nat) (rec : gmap string value),
        records !! i = Some rec ->
        exists doc source,
          docs !! i = Some doc /\
          doc !! "record_index" = Some (VInt (Z.of_nat i + 1)) /\
          doc !! "ingestion_time" = Some (VTime (clock P (clock_reads w))) /\
          doc !! "source" = Some (VDict source) /\
          source !! "retrieved_at" =
            Some (VStr (isoformat P (clock P (clock_reads w)))) /\
          doc !! "data" = Some (VDict (clean_record rec)).
Proof.
  intros P G records endpoint w. eexists _, _. split; [reflexivity|].
  split; [reflexivity|]. split; [by rewrite transform_loop_length|].
  intros i rec Hi. eexists _, _. split.
  { apply (transform_loop_lookup P G _ endpoint records 1 [] i rec Hi). }
  replace (1 + Z.of_nat i) with (Z.of_nat i + 1) by lia.
  split; [rewrite flatten_lookup_envelope_key by set_solver; reflexivity|].
  split; [rewrite flatten_lookup_envelope_key by set_solver; reflexivity|].
  split; [rewrite flatten_lookup_envelope_key by set_solver; reflexivity|].
  split; [reflexivity|].
  rewrite flatten_lookup_envelope_key by set_solver; reflexivity.
Qed.

Lemma transform_indices_contiguous_and_time_shared_witness :
  exists docs w' doc,
    transform catalogue default_globals [sample_record; record_id_zero]
              "/languages" world0 = (Ok docs, w') /\
    docs !! 1%nat = Some doc /\
    doc !! "record_index" = Some (VInt 2) /\
    doc !! "ingestion_time" = Some (VTime (sample_clock 0)).
Proof.
  destruct (transform_indices_contiguous_and_time_shared
              catalogue default_globals [sample_record; record_id_zero]
              "/languages" world0) as (docs & w' & Heq & _ & _ & Hdocs).
  destruct (Hdocs 1%nat record_id_zero eq_refl)
    as (doc & source & Hdoc & Hindex & Htime & _).
  exists docs, w', doc. repeat split; assumption.
Defined.

(** ** Fetching *)

Lemma gets_app (t1 t2 : list event) : gets (t1 ++ t2) = gets t1 ++ gets t2.
Proof. apply omap_app. Qed.

Lemma safe_get_json_loop_effects (P : platform) (G : globals)
    (url : string) (params : value) (attempts : list Z) :
  forall w,
    exists r w' new,
      safe_get_json_loop P G attempts url params w = (r, w') /\
      trace w' = trace w ++ new /\
      clock_reads w' = clock_reads w /\
      requests w' = (requests w + length (gets new))%nat /\
      (length (gets new) <= length attempts)%nat /\
      Forall (fun rq => rq = Request url params (REQUEST_TIMEOUT G)) (gets new).
Proof.
  induction attempts as [|attempt rest IH]; intros w.
  - eexists _, _, [_]. split; [reflexivity|]. cbn. repeat split; auto with lia.
  - cbn [safe_get_json_loop]. unfold session_get.
    destruct (net P (requests w) _) as [v|e] eqn:E.
    + eexists _, _, [EvGet _]. split; [reflexivity|]. cbn.
      repeat split; auto with lia.
    + assert (Hescape :
        exists r w' new,
          (Raise (A := value) e,
           World (S (requests w)) (clock_reads w)
                 (trace w ++ [EvGet (Request url params (REQUEST_TIMEOUT G))]))
            = (r, w') /\
          trace w' = trace w ++ new /\ clock_reads w' = clock_reads w /\
          requests w' = (requests w + length (gets new))%nat /\
          (length (gets new) <= length (attempt :: rest))%nat /\
          Forall (fun rq => rq = Request url params (REQUEST_TIMEOUT G)) (gets new)).
      { eexists _, _, [EvGet _]. split; [reflexivity|]. cbn.
        repeat split; auto with lia. }
      destruct e; try exact Hescape; clear Hescape; run_effects;
        match goal with
        | |- context [safe_get_json_loop _ _ _ _ _ ?w2] =>
            destruct (IH w2) as (r & w' & new & Heq & Htr & Hck & Hrq & Hlen & Hall)
        end;
        rewrite Heq; cbn in Htr, Hck, Hrq;
        rewrite <- !app_assoc in Htr; cbn [app] in Htr;
        eexists r, w', _;
        (split; [reflexivity|]); (split; [exact Htr|]);
        unfold gets in *; cbn;
        (repeat split; [done | lia | lia | by constructor]).
Qed.

Lemma safe_get_json_loop_exhausted (P : platform) (G : globals)
    (url : string) (params : value) (attempts : list Z) :
  forall w,
    (forall k, (k < length attempts)%nat ->
       transport_failure
         (net P (requests w + k) (Request url params (REQUEST_TIMEOUT G)))) ->
    exists w',
      safe_get_json_loop P G attempts url params w = (Ok (VDict ∅), w') /\
      requests w' = (requests w + length attempts)%nat.
Proof.
  induction attempts as [|attempt rest IH]; intros w Hfail.
  - eexists. split; [reflexivity|]. cbn. lia.
  - cbn [safe_get_json_loop]. unfold session_get.
    pose proof (Hfail O ltac:(cbn; lia)) as H0. rewrite Nat.add_0_r in H0.
    assert (Hrest : forall k, (k < length rest)%nat ->
              transport_failure
                (net P (S (requests w) + k) (Request url params (REQUEST_TIMEOUT G)))).
    { intros k Hk. replace (S (requests w) + k)%nat with (requests w + S k)%nat by lia.
      apply Hfail. cbn. lia. }
    destruct H0 as [-> | ->]; run_effects;
      match goal with
      | |- context [safe_get_json_loop _ _ _ _ _ ?w2] =>
          destruct (IH w2 Hrest) as (w' & Heq & Hrq)
      end;
      rewrite Heq; exists w'; (split; [reflexivity|]); cbn in Hrq; lia.
Qed.

(** C5.  One call of [safe_get_json] issues at most three GETs, and when
    each of its three attempts fails with a transport-level error it
    returns the empty mapping as a normal result: nothing is raised. *)
Theorem safe_get_json_three_attempts_then_empty :
  forall (P : platform) (G : globals) (url : string) (params : value) (w : world),
    exists r w' new,
      safe_get_json P G url params w = (r, w') /\
      trace w' = trace w ++ new /\
      (length (gets new) <= 3)%nat /\
      ((forall k, (k < 3)%nat ->
          transport_failure
            (net P (requests w + k) (Request url params (REQUEST_TIMEOUT G)))) ->
       r = Ok (VDict ∅) /\ length (gets new) = 3%nat).
Proof.
  intros P G url params w. unfold safe_get_json.
  destruct (safe_get_json_loop_effects P G url params [0; 1; 2] w)
    as (r & w' & new & Heq & Htr & _ & Hrq & Hlen & _).
  exists r, w', new. repeat split; try done.
  - destruct (safe_get_json_loop_exhausted P G url params [0; 1; 2] w H)
      as (w2 & Heq2 & _). congruence.
  - destruct (safe_get_json_loop_exhausted P G url params [0; 1; 2] w H)
      as (w2 & Heq2 & Hrq2).
    rewrite Heq in Heq2. injection Heq2 as _ <-. cbn in Hrq2. lia.
Qed.

Lemma safe_get_json_three_attempts_then_empty_witness :
  exists w',
    safe_get_json unreachable default_globals "https://api.filterlists.com/tags"
                  VNone world0 = (Ok (VDict ∅), w') /\
    length (gets (trace w')) = 3%nat.
Proof.
  destruct (safe_get_json_three_attempts_then_empty
              unreachable default_globals "https://api.filterlists.com/tags"
              VNone world0) as (r & w' & new & Heq & Htr & _ & Hfail).
  destruct Hfail as [-> Hlen].
  - intros [|[|[|k]]] Hk; cbn; [by left | by right | by left | lia].
  - exists w'. split; [exact Heq|]. rewrite Htr. exact Hlen.
Defined.

(** C2.  The code departs from the claim.  Whatever timeout the environment
    configures, once the module has been imported the name
    [REQUEST_TIMEOUT] holds the integer 10 of the later assignment, and
    every GET of [safe_get_json] is issued with that value: the configured
    value never reaches a request. *)
Theorem request_timeout_ignores_configuration :
  forall (float : string -> option Q) (env : gmap string string) (G : globals)
         (P : platform) (url : string) (params : value) (w : world),
    module_init float env = Some G ->
    REQUEST_TIMEOUT G = VInt 10 /\
    exists r w' new,
      safe_get_json P G url params w = (r, w') /\
      trace w' = trace w ++ new /\
      Forall (fun rq => req_timeout rq = VInt 10) (gets new).
Proof.
  intros float env G P url params w Hinit.
  assert (REQUEST_TIMEOUT G = VInt 10) as HG.
  { unfold module_init in Hinit. destruct (configured_timeout float env); [|done].
    by injection Hinit as <-. }
  split; [exact HG|].
  destruct (safe_get_json_loop_effects P G url params [0; 1; 2] w)
    as (r & w' & new & Heq & Htr & _ & _ & _ & Hall).
  exists r, w', new. repeat split; try done.
  eapply Forall_impl; [exact Hall|]. intros rq ->. exact HG.
Qed.

Lemma request_timeout_ignores_configuration_witness :
  configured_timeout float_of_decimal env_timeout_30 = Some (VFloat 30) /\
  exists G w',
    module_init float_of_decimal env_timeout_30 = Some G /\
    py_eq (VFloat 30) (REQUEST_TIMEOUT G) = false /\
    safe_get_json catalogue G "https://api.filterlists.com/tags" VNone world0
      = (Ok (VDict (list_to_map
                      [("data", VList [VDict (list_to_map [("id", VInt 1)])])])), w') /\
    gets (trace w') =
      [Request "https://api.filterlists.com/tags" VNone (VInt 10)].
Proof.
  split; [reflexivity|].
  destruct (request_timeout_ignores_configuration
              float_of_decimal env_timeout_30
              (Globals "https://api.filterlists.com" "mongodb://localhost:27017"
                       "filterlists_db" (VInt 10))
              catalogue "https://api.filterlists.com/tags" VNone world0
              eq_refl) as (HG & r & w' & new & Heq & Htr & Hall).
  eexists _, _. split; [reflexivity|]. split; [reflexivity|].
  split; reflexivity.
Defined.

(** ** Extract *)

(** C7.  For an endpoint other than "/lists" whose fetch returns [data],
    [extract] returns [data] itself when it is a sequence, the sequence
    under the key "data" when [data] is a mapping holding one there, the
    one-element sequence of [data] when it is any other mapping, and the
    empty sequence for every other shape. *)
Theorem extract_other_endpoints_by_shape :
  forall (P : platform) (G : globals) (endpoint : string) (w w1 : world)
         (data : value),
    endpoint <> "/lists" ->
    (log INFO "Extracting %s" [VStr endpoint];;
     safe_get_json P G (rstrip slash (BASE_URL G) +:+ endpoint) VNone) w
      = (Ok data, w1) ->
    exists records w2,
      extract P G endpoint w = (Ok records, w2) /\
      (forall l, data = VList l -> records = l) /\
      (forall d l, data = VDict d -> d !! "data" = Some (VList l) -> records = l) /\
      (forall d, data = VDict d -> (forall l, d !! "data" <> Some (VList l)) ->
                 records = [VDict d]) /\
      ((forall l, data <> VList l) -> (forall d, data <> VDict d) -> records = []).
Proof.
  intros P G endpoint w w1 data Hep Hfetch. unfold extract.
  unfold bind at 1 in Hfetch. unfold bind at 1. unfold bind at 1.
  destruct (log INFO "Extracting %s" [VStr endpoint] w) as [[[]|e] w0]; [|done].
  rewrite Hfetch. rewrite (bool_decide_eq_false_2 _ Hep).
  destruct data as [| | | | | |l|d]; cbn [is_None].
  1-6: run_effects; eexists _, _; (split; [reflexivity|]);
    repeat split; try done; intros; exfalso; eauto.
  - eexists _, _. split; [reflexivity|]. repeat split; try done.
    + by intros l' [= ->].
    + intros H _. by destruct (H l).
  - destruct (d !! "data") as [[| | | | | |l|d']|] eqn:Hd;
      (eexists _, _; split; [reflexivity|]; repeat split; try done;
       [ intros d0 l0 [= <-] Hl; congruence
       | intros d0 [= <-] Hno; try reflexivity; by destruct (Hno l)
       | intros _ H; by destruct (H d) ]).
Qed.

Lemma extract_other_endpoints_by_shape_witness :
  exists w2,
    extract catalogue default_globals "/tags" world0
      = (Ok [VDict (list_to_map [("id", VInt 1)])], w2).
Proof.
  destruct (extract_other_endpoints_by_shape catalogue default_globals "/tags"
              world0 _ _ ltac:(discriminate) eq_refl)
    as (records & w2 & Heq & _ & Hwrapped & _).
  exists w2. rewrite Heq. f_equal. f_equal. eapply Hwrapped; reflexivity.
Defined.

Lemma safe_get_json_exhausted (P : platform) (G : globals) (url : string)
    (params : value) (w : world) :
  (forall k, (k < 3)%nat ->
     transport_failure
       (net P (requests w + k) (Request url params (REQUEST_TIMEOUT G)))) ->
  exists w', safe_get_json P G url params w = (Ok (VDict ∅), w').
Proof.
  intros Hfail.
  destruct (safe_get_json_loop_exhausted P G url params [0; 1; 2] w Hfail)
    as (w' & Heq & _).
  by exists w'.
Qed.

Lemma bind_ret {A B} (a : A) (k : A -> M B) : bind (ret a) k = k a.
Proof. reflexivity. Qed.

Lemma bind_emit {B} (e : event) (k : unit -> M B) (w : world) :
  bind (emit e) k w = k tt (World (requests w) (clock_reads w) (trace w ++ [e])).
Proof. reflexivity. Qed.

Lemma bind_ok {A B} (m : M A) (k : A -> M B) (w w' : world) (a : A) :
  m w = (Ok a, w') -> bind m k w = k a w'.
Proof. intros H. unfold bind. by rewrite H. Qed.

(** The loop body for an item that carries an integer identifier. *)
Lemma extract_details_with_id (P : platform) (G : globals)
    (d : gmap string value) (z : Z) (rest detailed : list value) (w : world) :
  d !! "id" = Some (VInt z) ->
  extract_details P G (VDict d :: rest) detailed w =
  (let* detail :=
     safe_get_json P G
       (rstrip slash (BASE_URL G) +:+ "/lists/" +:+ py_str P (VInt z)) VNone in
   sleep 0.1;;
   extract_details P G rest
     (detailed ++ [if negb (is_None detail) then detail else VDict d]))
    (World (requests w) (clock_reads w)
           (trace w ++ [EvLog DEBUG "Fetching detail for list id=%s" [VInt z]])).
Proof.
  intros Hid. cbn [extract_details item_get]. rewrite bind_ret.
  unfold get. rewrite Hid. cbn [from_option id is_None].
  unfold log. by rewrite bind_emit.
Qed.

(** When the detail fetch succeeds with a body other than [null], the
    detail takes the place of the list-view item. *)
Lemma extract_details_success (P : platform) (G : globals)
    (d : gmap string value) (z : Z) (detail : value)
    (rest detailed : list value) (w : world) :
  d !! "id" = Some (VInt z) ->
  net P (requests w)
      (Request (rstrip slash (BASE_URL G) +:+ "/lists/" +:+ py_str P (VInt z))
               VNone (REQUEST_TIMEOUT G)) = Ok detail ->
  detail <> VNone ->
  exists w',
    extract_details P G (VDict d :: rest) detailed w =
    extract_details P G rest (detailed ++ [detail]) w'.
Proof.
  intros Hid Hnet Hdetail. rewrite (extract_details_with_id P G d z) by done.
  erewrite bind_ok; cycle 1.
  { unfold safe_get_json. cbn [safe_get_json_loop]. unfold session_get.
    cbn [requests]. rewrite Hnet. reflexivity. }
  unfold sleep. rewrite bind_emit. eexists.
  destruct detail; try reflexivity. done.
Qed.

Lemma extract_details_prefix (P : platform) (G : globals) (items : list value) :
  forall detailed w out w',
    extract_details P G items detailed w = (Ok out, w') ->
    exists new, out = detailed ++ new /\ length new = length items.
Proof.
  induction items as [|item rest IH]; intros detailed w out w' Hrun.
  - injection Hrun as <- <-. exists []. by rewrite app_nil_r.
  - cbn [extract_details] in Hrun.
    destruct item as [| | | | | | |d]; try discriminate Hrun.
    cbn [item_get] in Hrun. rewrite bind_ret in Hrun.
    destruct (is_None (get d "id")).
    + apply IH in Hrun as (new & -> & Hlen).
      exists (VDict d :: new). rewrite <- app_assoc. split; [done|]. cbn. lia.
    + unfold log in Hrun. rewrite bind_emit in Hrun. unfold bind at 1 in Hrun.
      match type of Hrun with
      | context [safe_get_json P G ?url VNone ?w1] =>
          destruct (safe_get_json P G url VNone w1) as [[detail|e] w2]
      end; [|discriminate Hrun].
      unfold sleep in Hrun. rewrite bind_emit in Hrun.
      apply IH in Hrun as (new & -> & Hlen).
      eexists (_ :: new). rewrite <- app_assoc. split; [done|]. cbn. lia.
Qed.

(** With every fetch answered, the detail replaces the list-view item. *)
Example extract_lists_detail_replaces_item :
  (extract catalogue default_globals "/lists" world0).1 = Ok [list_detail_42].
Proof. vm_compute. reflexivity. Qed.

(** C1.  The code departs from the claim.  For a list-view item with an
    integer identifier whose detail fetch fails on all three attempts, the
    record [extract] puts at the item's position is the empty mapping
    returned by [safe_get_json], not the list-view item: the fallback tests
    for [None], which the fetcher never returns on failure. *)
Theorem extract_lists_failed_detail_yields_empty_mapping :
  forall (P : platform) (G : globals) (d : gmap string value) (z : Z)
         (rest detailed : list value) (w : world),
    d !! "id" = Some (VInt z) ->
    (forall k, (k < 3)%nat ->
       transport_failure
         (net P (requests w + k)
              (Request (rstrip slash (BASE_URL G) +:+ "/lists/" +:+ py_str P (VInt z))
                       VNone (REQUEST_TIMEOUT G)))) ->
    (exists w1,
       extract_details P G (VDict d :: rest) detailed w =
       extract_details P G rest (detailed ++ [VDict ∅]) w1) /\
    (forall out w',
       extract_details P G (VDict d :: rest) detailed w = (Ok out, w') ->
       out !! length detailed = Some (VDict ∅)).
Proof.
  intros P G d z rest detailed w Hid Hfail.
  assert (exists w1,
            extract_details P G (VDict d :: rest) detailed w =
            extract_details P G rest (detailed ++ [VDict ∅]) w1) as [w1 Hstep].
  { rewrite (extract_details_with_id P G d z) by done.
    match goal with
    | |- context [safe_get_json P G ?url VNone] =>
        destruct (safe_get_json_exhausted P G url VNone
                    (World (requests w) (clock_reads w)
                       (trace w ++ [EvLog DEBUG "Fetching detail for list id=%s" [VInt z]]))
                    Hfail) as (w2 & Heq)
    end.
    erewrite bind_ok by exact Heq.
    unfold sleep. rewrite bind_emit. eexists. reflexivity. }
  split; [by exists w1|].
  intros out w' Hrun. rewrite Hstep in Hrun.
  apply extract_details_prefix in Hrun as (new & -> & _).
  rewrite <- app_assoc. by apply list_lookup_middle.
Qed.

Lemma extract_lists_failed_detail_yields_empty_mapping_witness :
  exists w',
    extract detail_down default_globals "/lists" world0 = (Ok [VDict ∅], w') /\
    [VDict ∅] <> [list_item_42].
Proof.
  destruct (extract_lists_failed_detail_yields_empty_mapping
              detail_down default_globals list_item_42_fields 42 [] []
              (World 1 0 [EvLog INFO "Extracting %s" [VStr "/lists"];
                          EvGet (Request "https://api.filterlists.com/lists"
                                         VNone (VInt 10))])
              ltac:(vm_compute; reflexivity)) as ((w1 & Heq) & _).
  - intros [|[|[|k]]] Hk; cbn; [by left | by left | by left | lia].
  - eexists. split; [|discriminate].
    change (extract detail_down default_globals "/lists" world0)
      with (extract_details detail_down default_globals [list_item_42] []
              (World 1 0 [EvLog INFO "Extracting %s" [VStr "/lists"];
                          EvGet (Request "https://api.filterlists.com/lists"
                                         VNone (VInt 10))])).
    unfold list_item_42. rewrite Heq. reflexivity.
Defined.

(** ** The source identifier *)

Lemma transform_single (P : platform) (G : globals) (rec : gmap string value)
    (endpoint : string) (w : world) :
  exists w',
    transform P G [rec] endpoint w =
    (Ok [flatten endpoint (clean_record rec)
           (envelope P G (clock P (clock_reads w)) endpoint 1 (clean_record rec))],
     w').
Proof. eexists. reflexivity. Qed.

Lemma envelope_source_id (P : platform) (G : globals) (now : Z)
    (endpoint : string) (i : Z) (rec : gmap string value) :
  envelope P G now endpoint i rec !! "_source_id" =
  Some (py_or (get rec "id") (get rec "_id")).
Proof. unfold envelope. cbn [list_to_map foldr]. by rewrite lookup_insert_eq. Qed.

(** C3.  The code departs from the claim.  When the cleaned record has an
    [id] whose value is falsy (0, 0.0 or false), the document's
    [_source_id] is not that value: it is whatever [get "_id"] gives, hence
    null when the record has no [_id]. *)
Theorem source_id_skips_falsy_id :
  forall (P : platform) (G : globals) (rec : gmap string value)
         (endpoint : string) (w : world) (v : value),
    clean_record rec !! "id" = Some v ->
    truthy v = false ->
    exists doc w',
      transform P G [rec] endpoint w = (Ok [doc], w') /\
      doc !! "_source_id" = Some (get (clean_record rec) "_id").
Proof.
  intros P G rec endpoint w v Hid Hv.
  destruct (transform_single P G rec endpoint w) as (w' & Heq).
  eexists _, w'. split; [exact Heq|].
  rewrite flatten_lookup_envelope_key by set_solver.
  rewrite envelope_source_id. unfold py_or.
  assert (get (clean_record rec) "id" = v) as -> by (unfold get; by rewrite Hid).
  by rewrite Hv.
Qed.

Lemma source_id_skips_falsy_id_witness :
  clean_record record_id_zero !! "id" = Some (VInt 0) /\
  exists doc w',
    transform catalogue default_globals [record_id_zero] "/tags" world0
      = (Ok [doc], w') /\
    doc !! "_source_id" = Some VNone.
Proof.
  split; [reflexivity|].
  exact (source_id_skips_falsy_id catalogue default_globals record_id_zero
           "/tags" world0 (VInt 0) ltac:(vm_compute; reflexivity) ltac:(vm_compute; reflexivity)).
Defined.

(** ** Transform over the store *)

Lemma heap_alloc_spec (o : Heap.obj) (h : gmap positive Heap.obj) :
  exists l, Heap.alloc o h = (Heap.Done l, <[l := o]> h) /\ h !! l = None.
Proof.
  exists (fresh (dom h)). split; [reflexivity|].
  apply not_elem_of_dom. apply is_fresh.
Qed.

Lemma heap_flatten_spec (endpoint : string) (rec fields : gmap string Heap.hval)
    (doc : positive) (h : gmap positive Heap.obj) :
  h !! doc = Some (Heap.ODict fields) ->
  Heap.flatten endpoint rec doc h
    = (Heap.Done tt, <[doc := Heap.ODict (Heap.flattened endpoint rec fields)]> h).
Proof.
  intros Hdoc. unfold Heap.flatten, Heap.flattened.
  repeat case_bool_decide;
    unfold Heap.bind, Heap.set_item, Heap.ret;
    rewrite ?Hdoc, ?lookup_insert_eq, ?insert_insert_eq; try reflexivity.
  by rewrite insert_id.
Qed.

Lemma heap_flattened_data (endpoint : string) (rec fields : gmap string Heap.hval) :
  Heap.flattened endpoint rec fields !! "data" = fields !! "data".
Proof.
  unfold Heap.flattened.
  repeat case_bool_decide; rewrite ?lookup_insert_ne by done; reflexivity.
Qed.

Lemma heap_lookup_fresh_ne (h : gmap positive Heap.obj) (l l' : positive)
    (o : Heap.obj) :
  h !! l = Some o -> h !! l' = None -> l <> l'.
Proof. intros H1 H2 ->. congruence. Qed.

(** One iteration: what it writes, and what it builds for a record that is
    a dictionary object. *)
Lemma heap_body_spec (P : platform) (G : globals) (now : Z) (endpoint : string)
    (i : Z) (item : Heap.hval) (t : positive) (h h' : gmap positive Heap.obj)
    (r : Heap.outcome unit) :
  Heap.body P G now endpoint i item t h = (r, h') ->
  (forall l o, l <> t -> h !! l = Some o -> h' !! l = Some o) /\
  (forall li fields acc,
     item = Heap.HRef li -> h !! li = Some (Heap.ODict fields) ->
     h !! t = Some (Heap.OList acc) ->
     exists doc_l data_l source_l,
       r = Heap.Done tt /\
       h' !! t = Some (Heap.OList (acc ++ [Heap.HRef doc_l])) /\
       h' !! doc_l =
         Some (Heap.ODict
                 (Heap.flattened endpoint (Heap.cleaned h fields)
                    (Heap.envelope_fields
                       (Heap.py_or (<[data_l := Heap.ODict (Heap.cleaned h fields)]> h)
                          (Heap.get (Heap.cleaned h fields) "id")
                          (Heap.get (Heap.cleaned h fields) "_id"))
                       now endpoint i source_l data_l))) /\
       h' !! source_l = Some (Heap.ODict (Heap.source_fields P G now endpoint)) /\
       h' !! data_l = Some (Heap.ODict (Heap.cleaned h fields)) /\
       h !! data_l = None /\ h !! doc_l = None /\ h !! source_l = None).
Proof.
  intros Hrun. unfold Heap.body, Heap.clean_record in Hrun.
  unfold Heap.bind at 1 in Hrun. unfold Heap.bind at 1 in Hrun.
  destruct (Heap.as_dict item h) as [[fields0| |] h0] eqn:Hitem.
  2,3: (injection Hrun as <- <-; unfold Heap.as_dict in Hitem;
        destruct item as [| | | | | |li0]; try (injection Hitem as _ <-);
        try (split; [by intros|]; intros; congruence);
        destruct (h !! li0) as [[|]|] eqn:Hli0; simplify_eq;
        (split; [by intros|]); intros; simplify_eq).
  assert (h0 = h /\ exists li0, item = Heap.HRef li0 /\
                                h !! li0 = Some (Heap.ODict fields0)) as [-> Hsrc].
  { unfold Heap.as_dict in Hitem. destruct item as [| | | | | |li0]; try done.
    destruct (h !! li0) as [[|]|] eqn:Hli0; simplify_eq. eauto. }
  destruct (heap_alloc_spec (Heap.ODict (Heap.cleaned h fields0)) h)
    as (l1 & Halloc1 & Hl1).
  rewrite Halloc1 in Hrun. clear Halloc1.
  set (rec' := Heap.cleaned h fields0) in *.
  set (h1 := <[l1 := Heap.ODict rec']> h) in *.
  unfold Heap.bind at 1 in Hrun. unfold Heap.as_dict at 1 in Hrun.
  assert (h1 !! l1 = Some (Heap.ODict rec')) as Hh1 by apply lookup_insert_eq.
  rewrite Hh1 in Hrun.
  unfold Heap.bind at 1 in Hrun. unfold Heap.bind at 1 in Hrun.
  set (sid := Heap.py_or h1 (Heap.get rec' "id") (Heap.get rec' "_id")) in *.
  destruct (heap_alloc_spec (Heap.ODict (Heap.source_fields P G now endpoint)) h1)
    as (l2 & Halloc2 & Hl2).
  rewrite Halloc2 in Hrun. clear Halloc2.
  set (h2 := <[l2 := Heap.ODict (Heap.source_fields P G now endpoint)]> h1) in *.
  unfold Heap.bind at 1 in Hrun.
  set (E0 := Heap.envelope_fields sid now endpoint i l2 l1) in *.
  destruct (heap_alloc_spec (Heap.ODict E0) h2) as (l3 & Halloc3 & Hl3).
  rewrite Halloc3 in Hrun. clear Halloc3.
  set (h3 := <[l3 := Heap.ODict E0]> h2) in *.
  assert (h3 !! l3 = Some (Heap.ODict E0)) as Hh3 by apply lookup_insert_eq.
  unfold Heap.bind at 1 in Hrun.
  rewrite (heap_flatten_spec endpoint rec' E0 l3 h3 Hh3) in Hrun.
  set (E' := Heap.flattened endpoint rec' E0) in *.
  set (h4 := <[l3 := Heap.ODict E']> h3) in *.
  assert (forall l o, h !! l = Some o -> h4 !! l = Some o) as Hold.
  { intros l o Hl. unfold h4, h3, h2, h1.
    assert (l <> l1) by (by eapply heap_lookup_fresh_ne).
    assert (h1 !! l = Some o) as Hl'1 by (unfold h1; by rewrite lookup_insert_ne).
    assert (l <> l2) by (by eapply heap_lookup_fresh_ne).
    assert (h2 !! l = Some o) as Hl'2 by (unfold h2; by rewrite lookup_insert_ne).
    assert (l <> l3) by (by eapply heap_lookup_fresh_ne).
    by rewrite !lookup_insert_ne. }
  assert (l1 <> l2) as H12 by (by eapply heap_lookup_fresh_ne).
  assert (h2 !! l1 = Some (Heap.ODict rec')) as Hh2
    by (unfold h2; by rewrite lookup_insert_ne).
  assert (l1 <> l3) as H13 by (by eapply heap_lookup_fresh_ne).
  assert (h2 !! l2 = Some (Heap.ODict (Heap.source_fields P G now endpoint)))
    as Hh2l2 by apply lookup_insert_eq.
  assert (l2 <> l3) as H23 by (by eapply heap_lookup_fresh_ne).
  assert (h4 !! l1 = Some (Heap.ODict rec')) as Hh4l1.
  { unfold h4, h3. by rewrite !lookup_insert_ne. }
  assert (h4 !! l2 = Some (Heap.ODict (Heap.source_fields P G now endpoint)))
    as Hh4l2.
  { unfold h4, h3. by rewrite !lookup_insert_ne. }
  assert (h4 !! l3 = Some (Heap.ODict E')) as Hh4l3 by apply lookup_insert_eq.
  assert (h !! l2 = None) as Hhl2.
  { destruct (h !! l2) as [o|] eqn:Ho; [|done].
    assert (h1 !! l2 = Some o); [|congruence].
    assert (l2 <> l1) by (by eapply heap_lookup_fresh_ne).
    unfold h1. by rewrite lookup_insert_ne. }
  assert (h !! l3 = None) as Hhl3.
  { destruct (h !! l3) as [o|] eqn:Ho; [|done].
    assert (h2 !! l3 = Some o); [|congruence].
    assert (l3 <> l1) by (by eapply heap_lookup_fresh_ne).
    assert (h1 !! l3 = Some o) as Hx by (unfold h1; by rewrite lookup_insert_ne).
    assert (l3 <> l2) by (by eapply heap_lookup_fresh_ne).
    unfold h2. by rewrite lookup_insert_ne. }
  unfold Heap.append in Hrun. split.
  - intros l o Hlt Hl. specialize (Hold l o Hl).
    destruct (h4 !! t) as [[acc|]|]; injection Hrun as <- <-; try done.
    by rewrite lookup_insert_ne.
  - intros li fields acc Hitem' Hli Ht.
    rewrite (Hold t _ Ht) in Hrun. injection Hrun as <- <-.
    destruct Hsrc as (li0 & Hitem0 & Hli0).
    assert (li0 = li) as Hli_eq by congruence.
    assert (fields = fields0) as -> by congruence.
    exists l3, l1, l2. split; [done|]. split; [apply lookup_insert_eq|].
    assert (l3 <> t) by (intros Heq; congruence).
    assert (l2 <> t) by (intros Heq; congruence).
    assert (l1 <> t) by (intros Heq; congruence).
    rewrite !lookup_insert_ne by done.
    repeat split; done.
Qed.

Lemma heap_as_list_inv (v : Heap.hval) (h h' : gmap positive Heap.obj)
    (r : Heap.outcome (list Heap.hval)) :
  Heap.as_list v h = (r, h') ->
  h' = h /\
  (forall items, r = Heap.Done items ->
     exists l, v = Heap.HRef l /\ h !! l = Some (Heap.OList items)) /\
  (forall l items, v = Heap.HRef l -> h !! l = Some (Heap.OList items) ->
     r = Heap.Done items) /\
  r <> Heap.OutOfFuel.
Proof.
  unfold Heap.as_list. intros Hrun.
  destruct v as [| | | | | |l]; try (injection Hrun as <- <-; by repeat split).
  destruct (h !! l) as [[items|]|] eqn:Hl; injection Hrun as <- <-;
    repeat split; try done; try (intros; simplify_eq; done).
  intros items' [= <-]. eauto.
Qed.

Lemma heap_loop_frame (P : platform) (G : globals) (now : Z) (endpoint : string)
    (records : Heap.hval) (t : positive) (fuel : nat) :
  forall k i h r h',
    Heap.loop P G fuel now endpoint k i records t h = (r, h') ->
    forall l o, l <> t -> h !! l = Some o -> h' !! l = Some o.
Proof.
  induction fuel as [|fuel IH]; intros k i h r h' Hrun l o Hlt Hl;
    cbn [Heap.loop] in Hrun; unfold Heap.bind at 1 in Hrun;
    destruct (Heap.as_list records h) as [rl hl] eqn:Hlist;
    apply heap_as_list_inv in Hlist as (-> & _ & _ & _);
    destruct rl as [items| |]; try (by injection Hrun as <- <-);
    destruct (items !! k) as [item|]; try (by injection Hrun as <- <-).
  unfold Heap.bind at 1 in Hrun.
  destruct (Heap.body P G now endpoint i item t h) as [rb hb] eqn:Hbody.
  apply heap_body_spec in Hbody as [Hframe _].
  destruct rb; try (injection Hrun as <- <-; by apply Hframe).
  eapply IH; [exact Hrun|done|]. by apply Hframe.
Qed.

Lemma heap_in_literals_stable (h0 h : gmap positive Heap.obj) (v : Heap.hval) :
  (forall l o, h0 !! l = Some o -> h !! l = Some o) ->
  (forall l, v = Heap.HRef l -> is_Some (h0 !! l)) ->
  Heap.in_literals h v = Heap.in_literals h0 v.
Proof.
  intros Hold Hclosed. destruct v as [| | | | | |l]; try done. cbn.
  destruct (Hclosed l eq_refl) as [o Ho]. by rewrite Ho, (Hold l o Ho).
Qed.

Lemma heap_cleaned_stable (h0 h : gmap positive Heap.obj)
    (fields : gmap string Heap.hval) :
  (forall l o, h0 !! l = Some o -> h !! l = Some o) ->
  Heap.closed h0 fields ->
  Heap.cleaned h fields = Heap.cleaned h0 fields.
Proof.
  intros Hold Hclosed. unfold Heap.cleaned. apply map_filter_ext.
  intros k v Hk. cbn. rewrite (heap_in_literals_stable h0 h v); [done|done|].
  intros l ->. by eapply Hclosed.
Qed.

(** *** Agreement of the store with JSON values *)

Lemma repr_fields_empty_iff (h : gmap positive Heap.obj)
    (fields : gmap string Heap.hval) (d : gmap string value) :
  Heap.repr_fields h fields d -> fields = ∅ <-> d = ∅.
Proof.
  intros Hrepr. split; intros ->; apply map_eq; intros k;
    specialize (Hrepr k); rewrite lookup_empty in *;
    by inversion Hrepr.
Qed.

Lemma repr_in_literals (h : gmap positive Heap.obj) (v : Heap.hval) (x : value) :
  Heap.repr h v x ->
  Heap.in_literals h v =
  py_in x [VNone; VStr ""; VList []; VDict ∅; VStr "null"].
Proof.
  intros Hrepr. apply eq_true_iff_eq. rewrite py_in_removable. unfold removable.
  destruct Hrepr as [| | | | s | |l items xs Hl Hall|l fields d Hl Hall]; cbn.
  1-4,6: intuition discriminate.
  - rewrite orb_true_iff, !bool_decide_eq_true. split.
    + intros [-> | ->]; [right; by left | do 4 right; done].
    + intros [Hx | [Hx | [Hx | [Hx | Hx]]]]; simplify_eq; auto.
  - rewrite Hl. destruct Hall as [|item x0 items xs Hitem Hrest].
    + split; [|done]. intros _. do 2 right. by left.
    + split; [discriminate|].
      intros [Hx | [Hx | [Hx | [Hx | Hx]]]]; discriminate Hx.
  - rewrite Hl, bool_decide_eq_true.
    rewrite (repr_fields_empty_iff h fields d Hall). split.
    + intros ->. do 3 right. by left.
    + intros [Hx | [Hx | [Hx | [Hx | Hx]]]]; by simplify_eq.
Qed.

Lemma repr_truthy (h : gmap positive Heap.obj) (v : Heap.hval) (x : value) :
  Heap.repr h v x -> Heap.truthy h v = truthy x.
Proof.
  intros Hrepr.
  destruct Hrepr as [| | | | | |l items xs Hl Hall|l fields d Hl Hall]; cbn;
    try reflexivity.
  - rewrite Hl. by destruct Hall.
  - rewrite Hl. f_equal. apply bool_decide_ext.
    exact (repr_fields_empty_iff h fields d Hall).
Qed.

Lemma repr_mono (h h' : gmap positive Heap.obj) :
  (forall l o, h !! l = Some o -> h' !! l = Some o) ->
  forall v x, Heap.repr h v x -> Heap.repr h' v x.
Proof.
  intros Hsub. fix IH 3. intros v x Hrepr.
  destruct Hrepr as [| | | | | |l items xs Hl Hall|l fields d Hl Hall];
    try constructor.
  - eapply Heap.repr_List; [by apply Hsub|].
    clear Hl. revert items xs Hall. fix IHall 3. intros items xs Hall.
    destruct Hall as [|item x items xs Hitem Hrest]; constructor.
    + by apply IH.
    + by apply IHall.
  - eapply Heap.repr_Dict; [by apply Hsub|].
    intros k. destruct (Hall k) as [v x Hvx|]; constructor. by apply IH.
Qed.

Lemma repr_fields_mono (h h' : gmap positive Heap.obj)
    (fields : gmap string Heap.hval) (d : gmap string value) :
  (forall l o, h !! l = Some o -> h' !! l = Some o) ->
  Heap.repr_fields h fields d -> Heap.repr_fields h' fields d.
Proof.
  intros Hsub Hrepr k. destruct (Hrepr k); constructor.
  by apply (repr_mono h h').
Qed.

Lemma repr_fields_empty (h : gmap positive Heap.obj) : Heap.repr_fields h ∅ ∅.
Proof. intros k. rewrite !lookup_empty. constructor. Qed.

Lemma repr_fields_insert (h : gmap positive Heap.obj)
    (fields : gmap string Heap.hval) (d : gmap string value)
    (k : string) (v : Heap.hval) (x : value) :
  Heap.repr h v x -> Heap.repr_fields h fields d ->
  Heap.repr_fields h (<[k := v]> fields) (<[k := x]> d).
Proof.
  intros Hv Hrepr k'. destruct (decide (k = k')) as [->|Hne].
  - rewrite !lookup_insert_eq. by constructor.
  - rewrite !lookup_insert_ne by done. apply Hrepr.
Qed.

Lemma repr_get (h : gmap positive Heap.obj)
    (fields : gmap string Heap.hval) (d : gmap string value) (k : string) :
  Heap.repr_fields h fields d -> Heap.repr h (Heap.get fields k) (get d k).
Proof.
  intros Hrepr. unfold Heap.get, get.
  destruct (Hrepr k); cbn; [done|constructor].
Qed.

(** The store-level cleaning keeps the fields that [clean_record] keeps;
    the test may run in a later store [h]. *)
Lemma repr_cleaned (h0 h : gmap positive Heap.obj)
    (fields : gmap string Heap.hval) (d : gmap string value) :
  (forall l o, h0 !! l = Some o -> h !! l = Some o) ->
  Heap.repr_fields h0 fields d ->
  Heap.repr_fields h0 (Heap.cleaned h fields) (clean_record d).
Proof.
  intros Hsub Hrepr k. specialize (Hrepr k).
  unfold Heap.cleaned, clean_record.
  destruct (fields !! k) as [v|] eqn:Hf; destruct (d !! k) as [x|] eqn:Hd;
    inversion Hrepr as [? ? Hvx|]; subst.
  - pose proof (repr_in_literals h v x (repr_mono h0 h Hsub v x Hvx)) as Hlit.
    destruct (Heap.in_literals h v) eqn:Hin.
    + rewrite (proj2 (map_lookup_filter_None _ fields k)),
              (proj2 (map_lookup_filter_None _ d k)); [constructor| |].
      * right. intros x' Hx' Hkeep. cbn [snd] in Hkeep.
        rewrite Hd in Hx'. injection Hx' as <-. congruence.
      * right. intros v' Hv' Hkeep. cbn [snd] in Hkeep.
        rewrite Hf in Hv'. injection Hv' as <-. congruence.
    + rewrite (proj2 (map_lookup_filter_Some _ fields k v)),
              (proj2 (map_lookup_filter_Some _ d k x)); [by constructor| |].
      * split; [done|]. cbn [snd]. by rewrite <- Hlit.
      * by split.
  - rewrite (proj2 (map_lookup_filter_None _ fields k)),
            (proj2 (map_lookup_filter_None _ d k)); [constructor| |]; by left.
Qed.

(** The store-level [_source_id] is the one [envelope] computes. *)
Lemma repr_source_id (h0 h : gmap positive Heap.obj)
    (fields : gmap string Heap.hval) (d : gmap string value) :
  (forall l o, h0 !! l = Some o -> h !! l = Some o) ->
  Heap.repr_fields h0 fields d ->
  Heap.repr h0 (Heap.py_or h (Heap.get fields "id") (Heap.get fields "_id"))
               (py_or (get d "id") (get d "_id")).
Proof.
  intros Hsub Hrepr. unfold Heap.py_or, py_or.
  rewrite (repr_truthy h _ _ (repr_mono h0 h Hsub _ _ (repr_get h0 _ _ "id" Hrepr))).
  destruct (truthy (get d "id")); by apply repr_get.
Qed.

Lemma repr_flattened (h : gmap positive Heap.obj) (endpoint : string)
    (rec fields : gmap string Heap.hval) (d doc : gmap string value) :
  Heap.repr_fields h rec d -> Heap.repr_fields h fields doc ->
  Heap.repr_fields h (Heap.flattened endpoint rec fields) (flatten endpoint d doc).
Proof.
  intros Hrec Hdoc. unfold Heap.flattened, flatten.
  repeat case_bool_decide; repeat apply repr_fields_insert;
    try done; by apply repr_get.
Qed.

(** The document an iteration builds denotes the document the value-level
    loop builds for the same record. *)
Lemma heap_doc_repr (P : platform) (G : globals) (now : Z) (endpoint : string)
    (i : Z) (h0 h h' : gmap positive Heap.obj) (t doc_l data_l source_l : positive)
    (fields : gmap string Heap.hval) (d : gmap string value) :
  (forall l o, h0 !! l = Some o -> h !! l = Some o) ->
  (forall l o, l <> t -> h !! l = Some o -> h' !! l = Some o) ->
  h0 !! t = None ->
  Heap.repr_fields h0 fields d ->
  h' !! doc_l =
    Some (Heap.ODict
            (Heap.flattened endpoint (Heap.cleaned h fields)
               (Heap.envelope_fields
                  (Heap.py_or (<[data_l := Heap.ODict (Heap.cleaned h fields)]> h)
                     (Heap.get (Heap.cleaned h fields) "id")
                     (Heap.get (Heap.cleaned h fields) "_id"))
                  now endpoint i source_l data_l))) ->
  h' !! source_l = Some (Heap.ODict (Heap.source_fields P G now endpoint)) ->
  h' !! data_l = Some (Heap.ODict (Heap.cleaned h fields)) ->
  h !! data_l = None ->
  doc_l <> t -> data_l <> t -> source_l <> t ->
  Heap.repr (delete t h') (Heap.HRef doc_l)
    (VDict (flatten endpoint (clean_record d)
              (envelope P G now endpoint i (clean_record d)))).
Proof.
  intros Hsub Hframe Ht0 Hrepr Hdoc Hsource Hdata Hfresh Hdt Hdat Hst.
  assert (forall l o, h0 !! l = Some o -> delete t h' !! l = Some o) as Hsub'.
  { intros l o Hl. assert (l <> t) by (intros ->; congruence).
    rewrite lookup_delete_ne by done. apply Hframe; [done|]. by apply Hsub. }
  assert (forall l o,
            h0 !! l = Some o ->
            <[data_l := Heap.ODict (Heap.cleaned h fields)]> h !! l = Some o)
    as Hsub1.
  { intros l o Hl. apply Hsub in Hl.
    rewrite lookup_insert_ne; [done|]. intros ->. congruence. }
  pose proof (repr_cleaned h0 h fields d Hsub Hrepr) as Hclean0.
  pose proof (repr_source_id h0 _ _ _ Hsub1 Hclean0) as Hsid0.
  pose proof (repr_fields_mono h0 _ _ _ Hsub' Hclean0) as Hclean.
  pose proof (repr_mono h0 _ Hsub' _ _ Hsid0) as Hsid.
  eapply Heap.repr_Dict; [by rewrite lookup_delete_ne|].
  apply repr_flattened; [exact Hclean|].
  unfold Heap.envelope_fields, envelope. cbn [list_to_map foldr].
  repeat apply repr_fields_insert; try constructor; try apply repr_fields_empty.
  - exact Hsid.
  - eapply Heap.repr_Dict; [by rewrite lookup_delete_ne|].
    unfold Heap.source_fields. cbn [list_to_map foldr].
    repeat apply repr_fields_insert; try constructor; apply repr_fields_empty.
  - eapply Heap.repr_Dict; [by rewrite lookup_delete_ne|]. exact Hclean.
Qed.

(** *** The loop and the whole call *)

(** The loop on a list of dictionary objects: it runs to the end within
    [fuel] iterations and appends one document per remaining record, whose
    [data] field refers to a dictionary allocated by the iteration, and
    which denotes the document of the value-level loop. *)
Lemma heap_loop_run (P : platform) (G : globals) (now : Z) (endpoint : string)
    (h0 : gmap positive Heap.obj) (rl t : positive) (items : list Heap.hval) :
  h0 !! rl = Some (Heap.OList items) ->
  h0 !! t = None ->
  (forall j item, items !! j = Some item ->
     exists li fields,
       item = Heap.HRef li /\ h0 !! li = Some (Heap.ODict fields) /\
       Heap.closed h0 fields) ->
  forall fuel k i h acc,
    (forall l o, h0 !! l = Some o -> h !! l = Some o) ->
    h !! t = Some (Heap.OList acc) ->
    (length items <= fuel + k)%nat ->
    exists h' new,
      Heap.loop P G fuel now endpoint k i (Heap.HRef rl) t h = (Heap.Done tt, h') /\
      (forall l o, l <> t -> h !! l = Some o -> h' !! l = Some o) /\
      h' !! t = Some (Heap.OList (acc ++ new)) /\
      length new = (length items - k)%nat /\
      forall j li fields,
        items !! (k + j)%nat = Some (Heap.HRef li) ->
        h0 !! li = Some (Heap.ODict fields) ->
        exists doc_l E data_l,
          new !! j = Some (Heap.HRef doc_l) /\
          h' !! doc_l = Some (Heap.ODict E) /\
          E !! "data" = Some (Heap.HRef data_l) /\
          h0 !! data_l = None /\
          h' !! data_l = Some (Heap.ODict (Heap.cleaned h0 fields)) /\
          forall d,
            Heap.repr_fields h0 fields d ->
            Heap.repr (delete t h') (Heap.HRef doc_l)
              (VDict (flatten endpoint (clean_record d)
                        (envelope P G now endpoint (i + Z.of_nat j)
                                  (clean_record d)))).
Proof.
  intros Hrl Ht0 Hwf.
  assert (Hstop : forall k i h acc fuel,
            (forall l o, h0 !! l = Some o -> h !! l = Some o) ->
            h !! t = Some (Heap.OList acc) ->
            items !! k = None ->
            exists h' new,
              Heap.loop P G fuel now endpoint k i (Heap.HRef rl) t h
                = (Heap.Done tt, h') /\
              (forall l o, l <> t -> h !! l = Some o -> h' !! l = Some o) /\
              h' !! t = Some (Heap.OList (acc ++ new)) /\
              length new = (length items - k)%nat /\
              forall j li fields,
                items !! (k + j)%nat = Some (Heap.HRef li) ->
                h0 !! li = Some (Heap.ODict fields) ->
                exists doc_l E data_l,
                  new !! j = Some (Heap.HRef doc_l) /\
                  h' !! doc_l = Some (Heap.ODict E) /\
                  E !! "data" = Some (Heap.HRef data_l) /\
                  h0 !! data_l = None /\
                  h' !! data_l = Some (Heap.ODict (Heap.cleaned h0 fields)) /\
                  forall d,
                    Heap.repr_fields h0 fields d ->
                    Heap.repr (delete t h') (Heap.HRef doc_l)
                      (VDict (flatten endpoint (clean_record d)
                                (envelope P G now endpoint (i + Z.of_nat j)
                                          (clean_record d))))).
  { intros k i h acc fuel Hold Ht Hk. exists h, [].
    split.
    { destruct fuel; cbn [Heap.loop]; unfold Heap.bind, Heap.as_list;
        by rewrite (Hold rl _ Hrl), Hk. }
    split; [done|]. split; [by rewrite app_nil_r|].
    apply lookup_ge_None in Hk. split; [cbn; lia|].
    intros j li fields Hj. apply lookup_lt_Some in Hj. lia. }
  induction fuel as [|fuel IH]; intros k i h acc Hold Ht Hfuel.
  - apply Hstop; try done. apply lookup_ge_None. lia.
  - destruct (items !! k) as [item|] eqn:Hk; [|by apply Hstop].
    destruct (Hwf k item Hk) as (li & fields & -> & Hli & Hclosed).
    cbn [Heap.loop]. unfold Heap.bind at 1. unfold Heap.as_list.
    rewrite (Hold rl _ Hrl), Hk. unfold Heap.bind at 1.
    destruct (Heap.body P G now endpoint i (Heap.HRef li) t h) as [rb hb] eqn:Hbody.
    apply heap_body_spec in Hbody as [Hframe Hbuild].
    destruct (Hbuild li fields acc eq_refl (Hold li _ Hli) Ht)
      as (doc_l & data_l & source_l & -> & Htb & Hdoc & Hsource & Hcleaned
          & Hdl & Hdocl & Hsl).
    assert (forall l o, h0 !! l = Some o -> hb !! l = Some o) as Hold'.
    { intros l o Hl. apply Hframe; [|by apply Hold]. intros ->. congruence. }
    destruct (IH (S k) (i + 1) hb (acc ++ [Heap.HRef doc_l]) Hold' Htb
                 ltac:(lia))
      as (h' & new & Hrun & Hframe' & Ht' & Hlen & Hrest).
    exists h', (Heap.HRef doc_l :: new). split; [exact Hrun|].
    split; [intros l o Hlt Hl; apply Hframe'; [done|]; by apply Hframe|].
    split; [by rewrite <- app_assoc in Ht'|].
    apply lookup_lt_Some in Hk as Hklt.
    split; [cbn; lia|].
    intros [|j] li' fields' Hj Hli'.
    + rewrite Nat.add_0_r, Hk in Hj. injection Hj as <-.
      assert (fields' = fields) as -> by congruence.
      assert (doc_l <> t) by (intros ->; congruence).
      assert (data_l <> t) by (intros ->; congruence).
      assert (source_l <> t) by (intros ->; congruence).
      eexists doc_l, _, data_l. split; [done|].
      split; [by apply Hframe'|].
      split; [by rewrite heap_flattened_data|].
      split.
      { destruct (h0 !! data_l) as [o|] eqn:Ho; [|done].
        apply Hold in Ho. congruence. }
      split.
      { rewrite <- (heap_cleaned_stable h0 h fields Hold Hclosed).
        by apply Hframe'. }
      intros d Hd. rewrite Z.add_0_r.
      eapply (heap_doc_repr P G now endpoint i h0 h h' t doc_l data_l source_l
                fields d); try done.
      * intros l o Hlt Hl. apply Hframe'; [done|]. by apply Hframe.
      * by apply Hframe'.
      * by apply Hframe'.
      * by apply Hframe'.
    + replace (k + S j)%nat with (S k + j)%nat in Hj by lia.
      destruct (Hrest j li' fields' Hj Hli')
        as (doc_l' & E' & data_l' & Hnew & Hd1 & Hd2 & Hd3 & Hd4 & Hd5).
      exists doc_l', E', data_l'. repeat (split; [done|]).
      intros d Hd. replace (i + Z.of_nat (S j)) with (i + 1 + Z.of_nat j) by lia.
      by apply Hd5.
Qed.

(** C10.  [transform] does not mutate its inputs.  Whatever it is given and
    however it ends, every object that was in the store before the call is
    the same object afterwards: the record list, each record dictionary and
    everything they refer to.  On a list of dictionaries the call returns a
    list allocated by the call with one document per record, and the [data]
    field of each document refers to a dictionary that did not exist before
    the call and holds the cleaned fields, never to the record itself. *)
Theorem transform_leaves_inputs_unchanged :
  forall (P : platform) (G : globals) (h h' : gmap positive Heap.obj)
         (records : Heap.hval) (endpoint : string) (now : Z)
         (r : Heap.outcome positive),
    Heap.transform P G records endpoint now h = (r, h') ->
    (forall l o, h !! l = Some o -> h' !! l = Some o) /\
    (forall items,
       Heap.list_of_dicts h records items ->
       exists out docs,
         r = Heap.Done out /\ h !! out = None /\
         h' !! out = Some (Heap.OList docs) /\
         length docs = length items /\
         forall j li fields,
           items !! j = Some (Heap.HRef li) ->
           h !! li = Some (Heap.ODict fields) ->
           exists doc_l E data_l,
             docs !! j = Some (Heap.HRef doc_l) /\
             h' !! doc_l = Some (Heap.ODict E) /\
             E !! "data" = Some (Heap.HRef data_l) /\
             h !! data_l = None /\
             h' !! data_l = Some (Heap.ODict (Heap.cleaned h fields))).
Proof.
  intros P G h h' records endpoint now r Hrun.
  unfold Heap.transform in Hrun. unfold Heap.bind at 1 in Hrun.
  destruct (Heap.as_list records h) as [rl hl] eqn:Hlist.
  apply heap_as_list_inv in Hlist as (-> & Hitems & Hdone & Hfuel).
  destruct rl as [items0| |]; [| |done].
  2: { injection Hrun as <- <-. split; [done|].
       intros items (rl & -> & Hrl & _). by specialize (Hdone rl items eq_refl Hrl). }
  destruct (Hitems items0 eq_refl) as (rl & -> & Hrl). clear Hitems Hdone Hfuel.
  unfold Heap.bind at 1 in Hrun.
  destruct (heap_alloc_spec (Heap.OList []) h) as (t & Halloc & Ht).
  rewrite Halloc in Hrun. clear Halloc.
  set (h1 := <[t := Heap.OList []]> h) in *.
  assert (forall l o, h !! l = Some o -> h1 !! l = Some o) as Hold.
  { intros l o Hl. unfold h1. rewrite lookup_insert_ne; [done|].
    intros ->. congruence. }
  unfold Heap.bind at 1 in Hrun.
  destruct (Heap.loop P G (length items0) now endpoint 0 1 (Heap.HRef rl) t h1)
    as [rloop hloop] eqn:Hloop.
  split.
  - intros l o Hl.
    assert (l <> t) by (intros ->; congruence).
    pose proof (heap_loop_frame P G now endpoint _ t _ _ _ _ _ _ Hloop l o
                  ltac:(done) (Hold l o Hl)) as Hkept.
    destruct rloop; injection Hrun as <- <-; exact Hkept.
  - intros items (rl' & [= <-] & Hrl' & Hwf).
    assert (items = items0) as -> by congruence.
    destruct (heap_loop_run P G now endpoint h rl t items0 Hrl Ht Hwf
                (length items0) 0%nat 1 h1 [] Hold
                ltac:(apply lookup_insert_eq) ltac:(lia))
      as (h2 & new & Hrun2 & _ & Ht2 & Hlen & Hdocs).
    rewrite Hloop in Hrun2. injection Hrun2 as -> ->.
    injection Hrun as <- <-.
    exists t, new. split; [done|]. split; [done|]. split; [exact Ht2|].
    split; [lia|]. intros j li fields Hj Hli.
    destruct (Hdocs j li fields Hj Hli)
      as (doc_l & E & data_l & H1 & H2 & H3 & H4 & H5 & _).
    by exists doc_l, E, data_l.
Qed.

Lemma transform_leaves_inputs_unchanged_witness :
  (Heap.transform catalogue default_globals (Heap.HRef 1) "/tags" 5
                  Heap.sample_store).1 = Heap.Done 5%positive /\
  (Heap.transform catalogue default_globals (Heap.HRef 1) "/tags" 5
                  Heap.sample_store).2 !! 2%positive
    = Some (Heap.ODict (list_to_map [("id", Heap.HInt 7); ("name", Heap.HStr "")])).
Proof.
  split; [vm_compute; reflexivity|].
  apply (transform_leaves_inputs_unchanged catalogue default_globals
           Heap.sample_store _ (Heap.HRef 1) "/tags" 5 _
           (surjective_pairing _)).
  vm_compute. reflexivity.
Defined.


(** The store-level [transform] computes what the value-level [transform]
    computes: on a list object that denotes the records [rs] it returns a
    list object that denotes the documents of [transform] for the same
    clock reading. *)
Lemma heap_transform_refines (P : platform) (G : globals)
    (h : gmap positive Heap.obj) (records : Heap.hval)
    (rs : list (gmap string value)) (endpoint : string) (w : world) :
  Heap.repr h records (VList (VDict <$> rs)) ->
  exists out h' docs w',
    Heap.transform P G records endpoint (clock P (clock_reads w)) h
      = (Heap.Done out, h') /\
    transform P G rs endpoint w = (Ok docs, w') /\
    Heap.repr h' (Heap.HRef out) (VList (VDict <$> docs)).
Proof.
  intros Hrepr. set (now := clock P (clock_reads w)).
  inversion Hrepr as [| | | | | |rl items xs Hrl Hall|]; subst.
  assert (Hitem : forall j item, items !! j = Some item ->
            exists li fields d,
              item = Heap.HRef li /\ h !! li = Some (Heap.ODict fields) /\
              rs !! j = Some d /\ Heap.repr_fields h fields d).
  { intros j item Hj.
    destruct (Forall2_lookup_l _ _ _ _ _ Hall Hj) as (x & Hx & Hix).
    rewrite list_lookup_fmap in Hx.
    destruct (rs !! j) as [d|] eqn:Hd; [|done]. injection Hx as <-.
    inversion Hix as [| | | | | | |li fields d' Hli Hf]; subst.
    by exists li, fields, d. }
  assert (Hwf : forall j item, items !! j = Some item ->
            exists li fields,
              item = Heap.HRef li /\ h !! li = Some (Heap.ODict fields) /\
              Heap.closed h fields).
  { intros j item Hj.
    destruct (Hitem j item Hj) as (li & fields & d & -> & Hli & _ & Hf).
    exists li, fields. repeat split; try done.
    intros k l Hk. specialize (Hf k). rewrite Hk in Hf.
    inversion Hf as [? ? Hv|]; subst. inversion Hv; subst; eauto. }
  destruct (heap_alloc_spec (Heap.OList []) h) as (t & Halloc & Ht).
  assert (forall l o, h !! l = Some o -> <[t := Heap.OList []]> h !! l = Some o)
    as Hold.
  { intros l o Hl. rewrite lookup_insert_ne; [done|]. intros ->. congruence. }
  destruct (heap_loop_run P G now endpoint h rl t items Hrl Ht Hwf
              (length items) 0%nat 1 (<[t := Heap.OList []]> h) [] Hold
              ltac:(apply lookup_insert_eq) ltac:(lia))
    as (h' & new & Hrun & _ & Ht' & Hlen & Hdocs).
  eexists t, h', (transform_loop P G now endpoint 1 rs []), _.
  split; [|split; [reflexivity|]].
  { unfold Heap.transform. unfold Heap.bind at 1. unfold Heap.as_list.
    rewrite Hrl. unfold Heap.bind at 1. rewrite Halloc.
    unfold Heap.bind at 1. by rewrite Hrun. }
  eapply Heap.repr_List; [exact Ht'|]. cbn [app].
  apply Forall2_length in Hall as Hlen_items. rewrite length_fmap in Hlen_items.
  apply Forall2_same_length_lookup_2.
  { rewrite length_fmap, transform_loop_length. cbn. lia. }
  intros j v x Hv Hx.
  assert (j < length items)%nat as Hj by (apply lookup_lt_Some in Hv; lia).
  destruct (lookup_lt_is_Some_2 items j Hj) as [item Hitem_j].
  destruct (Hitem j item Hitem_j) as (li & fields & d & -> & Hli & Hd & Hf).
  destruct (Hdocs j li fields Hitem_j Hli)
    as (doc_l & E & data_l & Hnew & _ & _ & _ & _ & Hdoc).
  rewrite Hnew in Hv. injection Hv as <-.
  pose proof (transform_loop_lookup P G now endpoint rs 1 [] j d Hd) as Hpure.
  cbn [length Nat.add] in Hpure.
  rewrite list_lookup_fmap, Hpure in Hx. cbn in Hx. injection Hx as <-.
  eapply repr_mono; [|exact (Hdoc d Hf)].
  intros l o Hl. apply lookup_delete_Some in Hl as [_ Hl]. exact Hl.
Qed.

(** * Further properties of the code *)

Local Set Warnings "-clear-no-such-hyp".

(** ** Cleaning *)

(** X1.  Cleaning twice is cleaning once. *)
Theorem clean_record_idempotent :
  forall d : gmap string value, clean_record (clean_record d) = clean_record d.
Proof.
  intros d. apply map_eq. intros k.
  destruct (clean_record d !! k) as [v|] eqn:Hk.
  - apply clean_record_lookup_keep; [done|].
    unfold clean_record in Hk. apply map_lookup_filter_Some in Hk as [_ Hv].
    cbn [snd] in Hv. rewrite <- py_in_removable. congruence.
  - by apply clean_record_lookup_absent.
Qed.

(** X2.  A cleaned record holds only pairs of the record it came from, and
    none of the values it holds is one of the five empty values. *)
Theorem clean_record_submap_without_empty_values :
  forall (d : gmap string value) (k : string) (v : value),
    clean_record d !! k = Some v -> d !! k = Some v /\ ~ removable v.
Proof.
  intros d k v Hk. unfold clean_record in Hk.
  apply map_lookup_filter_Some in Hk as [Hd Hv]. split; [done|].
  cbn [snd] in Hv. rewrite <- py_in_removable. congruence.
Qed.

Lemma clean_record_submap_without_empty_values_witness :
  sample_record !! "id" = Some (VInt 0) /\ ~ removable (VInt 0).
Proof.
  apply (clean_record_submap_without_empty_values sample_record "id" (VInt 0)).
  vm_compute. reflexivity.
Defined.

(** ** Collection names and the entry point *)

Lemma no_slash_app (s t : string) :
  no_slash s -> no_slash t -> no_slash (s +:+ t).
Proof. induction s as [|a s IH]; cbn; [done|]. intros [Ha Hs] Ht. auto. Qed.

Lemma no_slash_replace (s : string) : no_slash (replace slash "_" s).
Proof.
  induction s as [|a s IH]; cbn; [done|].
  destruct (Ascii.eqb a slash) eqn:E; cbn.
  - split; [discriminate|done].
  - split; [|done]. intros ->. by rewrite Ascii.eqb_refl in E.
Qed.

(** X3.  A collection name never contains a path separator, whatever the
    endpoint, and it is a non-empty name followed by "_raw". *)
Theorem endpoint_to_collection_has_no_separator :
  forall endpoint : string,
    no_slash (endpoint_to_collection endpoint) /\
    exists name, name <> "" /\ endpoint_to_collection endpoint = name +:+ "_raw".
Proof.
  intros endpoint. unfold endpoint_to_collection.
  case_bool_decide as Hname.
  - split; [cbn; repeat split; discriminate|]. by exists "root".
  - split.
    + apply no_slash_app; [apply no_slash_replace|].
      cbn; repeat split; discriminate.
    + by eexists.
Qed.

Lemma normalized_startswith (ep : string) :
  startswith_slash (normalized ep) = true.
Proof. unfold normalized. by destruct (startswith_slash ep) eqn:Hs. Qed.

(** X4.  The entry point's normalisation yields an endpoint that starts
    with a separator, leaves such an endpoint alone (so it is idempotent),
    and does not change the collection the endpoint is stored in. *)
Theorem normalized_starts_with_separator_and_keeps_collection :
  forall ep : string,
    startswith_slash (normalized ep) = true /\
    (startswith_slash ep = true -> normalized ep = ep) /\
    normalized (normalized ep) = normalized ep /\
    endpoint_to_collection (normalized ep) = endpoint_to_collection ep.
Proof.
  intros ep. unfold normalized.
  destruct (startswith_slash ep) eqn:Hs.
  - rewrite Hs. by repeat split.
  - cbn. repeat split; done.
Qed.

Lemma normalized_starts_with_separator_and_keeps_collection_witness :
  normalized "/tags" = "/tags".
Proof.
  destruct (normalized_starts_with_separator_and_keeps_collection "/tags")
    as (_ & Hkeep & _).
  apply Hkeep. reflexivity.
Defined.

(** ** The documents of transform *)

Lemma transform_document_at (P : platform) (G : globals)
    (records : list (gmap string value)) (endpoint : string) (w : world)
    (i : nat) (rec : gmap string value) :
  records !! i = Some rec ->
  exists docs w',
    transform P G records endpoint w = (Ok docs, w') /\
    docs !! i =
      Some (flatten endpoint (clean_record rec)
              (envelope P G (clock P (clock_reads w)) endpoint
                        (1 + Z.of_nat i) (clean_record rec))).
Proof.
  intros Hi. eexists _, _. split; [reflexivity|].
  apply (transform_loop_lookup P G _ endpoint records 1 [] i rec Hi).
Qed.

Lemma envelope_dom (P : platform) (G : globals) (now : Z) (endpoint : string)
    (i : Z) (rec : gmap string value) :
  dom (envelope P G now endpoint i rec) = list_to_set envelope_keys.
Proof. unfold envelope. rewrite dom_list_to_map_L. reflexivity. Qed.

Lemma flatten_dom (endpoint : string) (rec doc : gmap string value) :
  dom (flatten endpoint rec doc) =
  dom doc ∪ list_to_set (convenience_fields endpoint).*1.
Proof.
  unfold flatten, convenience_fields.
  repeat case_bool_decide; rewrite ?dom_insert_L; cbn; set_solver.
Qed.

Lemma flatten_convenience (endpoint : string) (rec doc : gmap string value)
    (dst src : string) :
  (dst, src) ∈ convenience_fields endpoint ->
  flatten endpoint rec doc !! dst = Some (get rec src).
Proof.
  unfold flatten, convenience_fields. intros Hin.
  repeat case_bool_decide;
    repeat (apply elem_of_cons in Hin as [[= -> ->]|Hin];
            [rewrite ?lookup_insert_eq; try done;
             rewrite lookup_insert_ne by done; by rewrite lookup_insert_eq|]);
    by apply elem_of_nil in Hin.
Qed.

(** X5.  The keys of a document are the seven envelope keys and the
    convenience keys of its endpoint, nothing else: a document of an
    endpoint without convenience fields has exactly the seven. *)
Theorem transform_document_keys :
  forall (P : platform) (G : globals) (records : list (gmap string value))
         (endpoint : string) (w : world) (i : nat) (rec : gmap string value),
    records !! i = Some rec ->
    exists docs w' doc,
      transform P G records endpoint w = (Ok docs, w') /\
      docs !! i = Some doc /\
      dom doc = list_to_set (envelope_keys ++ (convenience_fields endpoint).*1).
Proof.
  intros P G records endpoint w i rec Hi.
  destruct (transform_document_at P G records endpoint w i rec Hi)
    as (docs & w' & Hrun & Hdoc).
  eexists docs, w', _. split; [exact Hrun|]. split; [exact Hdoc|].
  rewrite flatten_dom, envelope_dom, list_to_set_app_L. reflexivity.
Qed.

Lemma transform_document_keys_witness :
  exists docs w' doc,
    transform catalogue default_globals [language_blank] "/unknown" world0
      = (Ok docs, w') /\
    docs !! 0%nat = Some doc /\
    dom doc = list_to_set envelope_keys.
Proof.
  destruct (transform_document_keys catalogue default_globals [language_blank]
              "/unknown" world0 0%nat language_blank eq_refl)
    as (docs & w' & doc & Hrun & Hdoc & Hdom).
  exists docs, w', doc. repeat split; done.
Defined.

(** X6.  A convenience field is read from the cleaned record: it holds the
    record's value when that value survives the cleaning, and null (with
    the key present) when the record lacks the source key or holds one of
    the five empty values there. *)
Theorem transform_convenience_fields_from_cleaned_record :
  forall (P : platform) (G : globals) (records : list (gmap string value))
         (endpoint : string) (w : world) (i : nat) (rec : gmap string value)
         (dst src : string),
    records !! i = Some rec ->
    (dst, src) ∈ convenience_fields endpoint ->
    exists docs w' doc,
      transform P G records endpoint w = (Ok docs, w') /\
      docs !! i = Some doc /\
      (forall v, rec !! src = Some v -> ~ removable v -> doc !! dst = Some v) /\
      (rec !! src = None \/ (exists v, rec !! src = Some v /\ removable v) ->
       doc !! dst = Some VNone).
Proof.
  intros P G records endpoint w i rec dst src Hi Hin.
  destruct (transform_document_at P G records endpoint w i rec Hi)
    as (docs & w' & Hrun & Hdoc).
  eexists docs, w', _. split; [exact Hrun|]. split; [exact Hdoc|].
  rewrite (flatten_convenience endpoint _ _ dst src Hin). unfold get. split.
  - intros v Hv Hkeep. by rewrite (clean_record_lookup_keep rec src v Hv Hkeep).
  - intros [Hnone | (v & Hv & Hdrop)].
    + by rewrite (clean_record_lookup_absent rec src Hnone).
    + by rewrite (clean_record_lookup_drop rec src v Hv Hdrop).
Qed.

Lemma transform_convenience_fields_from_cleaned_record_witness :
  exists docs w' doc,
    transform catalogue default_globals [language_blank] "/languages" world0
      = (Ok docs, w') /\
    docs !! 0%nat = Some doc /\
    doc !! "iso_code" = Some VNone.
Proof.
  destruct (transform_convenience_fields_from_cleaned_record
              catalogue default_globals [language_blank] "/languages" world0
              0%nat language_blank "iso_code" "iso6391" eq_refl
              ltac:(vm_compute; set_solver))
    as (docs & w' & doc & Hrun & Hdoc & _ & Hnull).
  exists docs, w', doc. repeat split; try done.
  apply Hnull. right. exists VNone. split; [vm_compute; reflexivity|].
  by left.
Defined.

Lemma transform_values_loop_mappings (P : platform) (G : globals) (now : Z)
    (endpoint : string) (rs : list (gmap string value)) :
  forall i transformed,
    transform_values_loop P G now endpoint i (VDict <$> rs) transformed =
    Ok (transform_loop P G now endpoint i rs transformed).
Proof.
  induction rs as [|r rs IH]; intros i transformed; cbn; [done|]. apply IH.
Qed.

Lemma transform_values_loop_raises (P : platform) (G : globals) (now : Z)
    (endpoint : string) (records : list value) :
  forall i transformed k v,
    records !! k = Some v -> (forall d, v <> VDict d) ->
    transform_values_loop P G now endpoint i records transformed =
    Raise AttributeError.
Proof.
  induction records as [|r records IH]; intros i transformed k v Hk Hv; [done|].
  destruct k as [|k].
  - injection Hk as ->. destruct v; try done. by destruct (Hv d).
  - destruct r; try done. cbn. by eapply IH.
Qed.

(** X7.  Called on what [extract] returned, [transform] behaves as on a
    list of mappings when every item is a mapping, and otherwise raises
    [AttributeError] without returning any document, after its log line
    and its one clock reading. *)
Theorem transform_values_mappings_or_attribute_error :
  forall (P : platform) (G : globals) (endpoint : string) (w : world),
    (forall rs, transform_values P G (VDict <$> rs) endpoint w =
                transform P G rs endpoint w) /\
    (forall records k v,
       records !! k = Some v -> (forall d, v <> VDict d) ->
       exists w',
         transform_values P G records endpoint w = (Raise AttributeError, w') /\
         clock_reads w' = S (clock_reads w) /\ requests w' = requests w).
Proof.
  intros P G endpoint w. split.
  - intros rs. unfold transform_values, transform.
    unfold bind, log, emit, datetime_now, ret. cbn.
    by rewrite transform_values_loop_mappings, length_fmap.
  - intros records k v Hk Hv. unfold transform_values.
    unfold bind, log, emit, datetime_now. cbn.
    rewrite (transform_values_loop_raises P G _ endpoint records 1 [] k v Hk Hv).
    eexists. repeat split.
Qed.

Lemma transform_values_mappings_or_attribute_error_witness :
  exists w',
    transform_values catalogue default_globals
      [VDict language_blank; VStr "stray"] "/languages" world0
      = (Raise AttributeError, w').
Proof.
  destruct (transform_values_mappings_or_attribute_error
              catalogue default_globals "/languages" world0) as [_ Hraise].
  destruct (Hraise [VDict language_blank; VStr "stray"] 1%nat (VStr "stray")
              eq_refl ltac:(discriminate)) as (w' & Hrun & _).
  by exists w'.
Defined.

(** ** Fetching *)

Lemma continues_refl (w : world) : continues w w [].
Proof. unfold continues. rewrite app_nil_r. cbn. auto with lia. Qed.

Lemma continues_trans (w1 w2 w3 : world) (n1 n2 : list event) :
  continues w1 w2 n1 -> continues w2 w3 n2 -> continues w1 w3 (n1 ++ n2).
Proof.
  intros (Ht1 & Hr1 & Hc1) (Ht2 & Hr2 & Hc2). unfold continues.
  rewrite Ht2, Ht1, Hr2, Hr1, gets_app, length_app, <- app_assoc.
  auto with lia.
Qed.

Lemma sleeps_app (t1 t2 : list event) : sleeps (t1 ++ t2) = sleeps t1 ++ sleeps t2.
Proof. apply omap_app. Qed.

(** One failed attempt: the GET, the warning and the sleep. *)
Lemma safe_get_json_loop_failed_attempt (P : platform) (G : globals)
    (url : string) (params : value) (attempt : Z) (rest : list Z) (w : world) :
  transport_failure
    (net P (requests w) (Request url params (REQUEST_TIMEOUT G))) ->
  exists w1 warning,
    safe_get_json_loop P G (attempt :: rest) url params w =
    safe_get_json_loop P G rest url params w1 /\
    continues w w1
      [EvGet (Request url params (REQUEST_TIMEOUT G)); warning; EvSleep 2] /\
    requests w1 = S (requests w) /\
    clock_reads w1 = clock_reads w /\
    fetch_event url params (REQUEST_TIMEOUT G) warning /\
    (exists msg args, warning = EvLog WARNING msg args).
Proof.
  intros Hfail. cbn [safe_get_json_loop]. unfold session_get.
  destruct Hfail as [-> | ->]; run_effects;
    eexists _, _; (split; [reflexivity|]); unfold continues; cbn;
    rewrite <- !app_assoc; cbn;
    (repeat split; cbn; try lia; eauto); unfold fetch_event; eauto 10.
Qed.

Lemma safe_get_json_loop_decided (P : platform) (G : globals)
    (url : string) (params : value) :
  forall k attempts w r0,
    (k < length attempts)%nat ->
    (forall j, (j < k)%nat ->
       transport_failure
         (net P (requests w + j) (Request url params (REQUEST_TIMEOUT G)))) ->
    net P (requests w + k) (Request url params (REQUEST_TIMEOUT G)) = r0 ->
    ~ transport_failure r0 ->
    exists w' new,
      safe_get_json_loop P G attempts url params w = (r0, w') /\
      continues w w' new /\
      clock_reads w' = clock_reads w /\
      length (gets new) = S k /\
      sleeps new = replicate k 2%Q /\
      Forall (fetch_event url params (REQUEST_TIMEOUT G)) new.
Proof.
  induction k as [|k IH]; intros attempts w r0 Hk Hfail Hnet Hr0;
    destruct attempts as [|attempt rest]; try (cbn in Hk; lia).
  - rewrite Nat.add_0_r in Hnet. cbn [safe_get_json_loop]. unfold session_get.
    rewrite Hnet.
    assert (exists w',
              (r0, World (S (requests w)) (clock_reads w)
                     (trace w ++ [EvGet (Request url params (REQUEST_TIMEOUT G))]))
                = (r0, w') /\
              continues w w' [EvGet (Request url params (REQUEST_TIMEOUT G))] /\
              clock_reads w' = clock_reads w) as (w' & Heq & Hcont & Hclock).
    { eexists. split; [reflexivity|]. unfold continues. cbn. auto with lia. }
    exists w', [EvGet (Request url params (REQUEST_TIMEOUT G))].
    split.
    { destruct r0 as [v|e]; [exact Heq|].
      destruct e; try exact Heq; destruct Hr0; [by left | by right]. }
    repeat split; try done; try apply Hcont.
    constructor; [by left|constructor].
  - pose proof (Hfail O ltac:(lia)) as H0. rewrite Nat.add_0_r in H0.
    destruct (safe_get_json_loop_failed_attempt P G url params attempt rest w H0)
      as (w1 & warning & -> & Hcont1 & Hreq1 & Hclock1 & Hwarn & Hlog).
    destruct (IH rest w1 r0) as (w' & new & Hrun & Hcont & Hclock & Hgets & Hsleeps & Hall).
    + cbn in Hk. lia.
    + intros j Hj. rewrite Hreq1.
      replace (S (requests w) + j)%nat with (requests w + S j)%nat by lia.
      apply Hfail. lia.
    + rewrite Hreq1. by replace (S (requests w) + k)%nat with (requests w + S k)%nat by lia.
    + done.
    + exists w', ([EvGet (Request url params (REQUEST_TIMEOUT G)); warning; EvSleep 2] ++ new).
      split; [exact Hrun|]. split; [by eapply continues_trans|].
      split; [congruence|].
      split.
      { destruct Hlog as (msg & args & ->). unfold gets in *. cbn. by rewrite Hgets. }
      split.
      { destruct Hlog as (msg & args & ->). unfold sleeps in *. cbn. by rewrite Hsleeps. }
      constructor; [by left|]. constructor; [done|].
      constructor; [|done]. unfold fetch_event. auto.
Qed.

Lemma transport_failure_dec (r : result value) :
  transport_failure r \/ ~ transport_failure r.
Proof.
  unfold transport_failure.
  destruct r as [v|[]]; auto; right; intros [H|H]; discriminate H.
Qed.

(** Whatever the server does, a call adds only its own fetch events, makes
    at most one GET per attempt and does not read the clock. *)
Lemma safe_get_json_loop_events (P : platform) (G : globals)
    (url : string) (params : value) (attempts : list Z) :
  forall w,
    exists r w' new,
      safe_get_json_loop P G attempts url params w = (r, w') /\
      continues w w' new /\
      clock_reads w' = clock_reads w /\
      (length (gets new) <= length attempts)%nat /\
      Forall (fetch_event url params (REQUEST_TIMEOUT G)) new /\
      (transport_only P -> exists v, r = Ok v).
Proof.
  induction attempts as [|attempt rest IH]; intros w.
  - eexists _, _, [_]. split; [reflexivity|]. unfold continues. cbn.
    repeat split; auto with lia; [|by eauto].
    constructor; [|done]. unfold fetch_event. auto 10.
  - destruct (transport_failure_dec
                (net P (requests w) (Request url params (REQUEST_TIMEOUT G))))
      as [Hfail|Hok].
    + destruct (safe_get_json_loop_failed_attempt P G url params attempt rest w Hfail)
        as (w1 & warning & -> & Hcont1 & Hreq1 & Hclock1 & Hwarn & Hlog).
      destruct (IH w1) as (r & w' & new & Hrun & Hcont & Hclock & Hlen & Hall & Hres).
      exists r, w', ([EvGet (Request url params (REQUEST_TIMEOUT G)); warning; EvSleep 2]
                       ++ new).
      split; [exact Hrun|]. split; [by eapply continues_trans|].
      split; [congruence|]. split.
      { destruct Hlog as (msg & args & ->). unfold gets in *. cbn. lia. }
      split; [|done].
      constructor; [by left|]. constructor; [done|].
      constructor; [|done]. unfold fetch_event. auto.
    + destruct (safe_get_json_loop_decided P G url params 0 (attempt :: rest) w _
                  ltac:(cbn; lia) ltac:(intros; lia)
                  ltac:(rewrite Nat.add_0_r; reflexivity) Hok)
        as (w' & new & Hrun & Hcont & Hclock & Hgets & _ & Hall).
      eexists _, w', new. split; [exact Hrun|].
      split; [done|]. split; [done|]. split; [rewrite Hgets; cbn; lia|].
      split; [done|]. intros Ponly.
      destruct (Ponly (requests w) (Request url params (REQUEST_TIMEOUT G)))
        as [[v Hv]|Hf]; [by eauto|done].
Qed.

(** X8.  [safe_get_json] returns the outcome of the first attempt that does
    not fail at transport level, be it a decoded body or an exception of
    another kind (which is raised to the caller without a further attempt):
    after [k] failed attempts it has made [k + 1] GETs and slept [k] times
    two seconds. *)
Theorem safe_get_json_first_decisive_attempt :
  forall (P : platform) (G : globals) (url : string) (params : value)
         (w : world) (k : nat) (r0 : result value),
    (k < 3)%nat ->
    (forall j, (j < k)%nat ->
       transport_failure
         (net P (requests w + j) (Request url params (REQUEST_TIMEOUT G)))) ->
    net P (requests w + k) (Request url params (REQUEST_TIMEOUT G)) = r0 ->
    ~ transport_failure r0 ->
    exists w' new,
      safe_get_json P G url params w = (r0, w') /\
      trace w' = trace w ++ new /\
      length (gets new) = S k /\
      sleeps new = replicate k 2%Q.
Proof.
  intros P G url params w k r0 Hk Hfail Hnet Hr0.
  destruct (safe_get_json_loop_decided P G url params k [0; 1; 2] w r0
              Hk Hfail Hnet Hr0)
    as (w' & new & Hrun & Hcont & _ & Hgets & Hsleeps & _).
  exists w', new. repeat split; try done. apply Hcont.
Qed.

Lemma safe_get_json_first_decisive_attempt_witness :
  exists w' new,
    safe_get_json flaky default_globals "https://api.filterlists.com/lists"
                  VNone world0 = (Ok (VList [list_item_42]), w') /\
    trace w' = new /\ length (gets new) = 2%nat /\ sleeps new = [2%Q].
Proof.
  destruct (safe_get_json_first_decisive_attempt flaky default_globals
              "https://api.filterlists.com/lists" VNone world0 1%nat
              (Ok (VList [list_item_42])))
    as (w' & new & Hrun & Htrace & Hgets & Hsleeps).
  - lia.
  - intros [|j] Hj; [by left | lia].
  - reflexivity.
  - intros [H|H]; discriminate H.
  - by exists w', new.
Defined.




(** ** Extract *)

Lemma extracting_app (t1 t2 : list event) :
  extracting (t1 ++ t2) = extracting t1 ++ extracting t2.
Proof. apply omap_app. Qed.

Lemma extracting_quiet (t : list event) : Forall quiet t -> extracting t = [].
Proof.
  induction 1 as [|e t He _ IH]; [done|].
  change (e :: t) with ([e] ++ t). by rewrite extracting_app, He, IH.
Qed.

Lemma fetch_event_quiet (url : string) (params timeout : value) (e : event) :
  fetch_event url params timeout e -> quiet e.
Proof. by intros [-> | [(a & ->) | [-> | [-> | ->]]]]. Qed.

Lemma safe_get_json_events (P : platform) (G : globals) (url : string)
    (params : value) (w : world) :
  exists r w' new,
    safe_get_json P G url params w = (r, w') /\
    continues w w' new /\
    clock_reads w' = clock_reads w /\
    (length (gets new) <= 3)%nat /\
    Forall quiet new /\
    (transport_only P -> exists v, r = Ok v).
Proof.
  destruct (safe_get_json_loop_events P G url params [0; 1; 2] w)
    as (r & w' & new & Hrun & Hcont & Hclock & Hlen & Hall & Hres).
  exists r, w', new. repeat split; try done; try apply Hcont.
  eapply Forall_impl; [exact Hall|]. intros e. apply fetch_event_quiet.
Qed.

Lemma continues_emit (w : world) (e : event) :
  gets [e] = [] ->
  continues w (World (requests w) (clock_reads w) (trace w ++ [e])) [e].
Proof. intros He. unfold continues. rewrite He. cbn. auto with lia. Qed.

(** The detail loop: its events, its request budget and its result. *)
Lemma extract_details_events (P : platform) (G : globals) (lists : list value) :
  forall detailed w,
    exists r w' new,
      extract_details P G lists detailed w = (r, w') /\
      continues w w' new /\
      clock_reads w' = clock_reads w /\
      (length (gets new) <= 3 * length lists)%nat /\
      Forall quiet new /\
      (transport_only P ->
       (Forall (fun item => exists d, item = VDict d) lists ->
        exists out, r = Ok out /\ length out = (length detailed + length lists)%nat) /\
       (~ Forall (fun item => exists d, item = VDict d) lists ->
        r = Raise AttributeError)).
Proof.
  induction lists as [|item rest IH]; intros detailed w.
  - exists (Ok detailed), w, []. split; [reflexivity|].
    split; [apply continues_refl|]. split; [done|]. split; [cbn; lia|].
    split; [done|]. intros _. split.
    + intros _. exists detailed. split; [done|]. cbn. lia.
    + intros H. by destruct H.
  - destruct item as [| | | | | | |d].
    1-7: (exists (Raise AttributeError), w, []; split; [reflexivity|];
          split; [apply continues_refl|]; split; [done|]; split; [cbn; lia|];
          split; [done|]; intros _; split; [|done];
          intros Hall; inversion Hall as [|? ? [d Hd] ?]; discriminate Hd).
    cbn [extract_details item_get]. rewrite bind_ret.
    destruct (is_None (get d "id")) eqn:Hid.
    + destruct (IH (detailed ++ [VDict d]) w)
        as (r & w' & new & Hrun & Hcont & Hclock & Hlen & Hquiet & Hres).
      exists r, w', new. split; [exact Hrun|]. split; [done|]. split; [done|].
      split; [cbn; lia|]. split; [done|]. intros Ponly. split.
      * intros Hall. inversion Hall as [|? ? _ Hrest]; subst.
        destruct (proj1 (Hres Ponly) Hrest) as (out & -> & Hout).
        exists out. split; [done|]. rewrite length_app in Hout. cbn in *. lia.
      * intros Hnot. apply (proj2 (Hres Ponly)). intros Hrest. apply Hnot.
        constructor; [by eauto|done].
    + unfold log. rewrite bind_emit. unfold bind at 1.
      match goal with
      | |- context [safe_get_json P G ?url VNone ?w1] =>
          destruct (safe_get_json_events P G url VNone w1)
            as (rd & w2 & new1 & Hrun1 & Hcont1 & Hclock1 & Hlen1 & Hquiet1 & Hres1);
          rewrite Hrun1;
          pose proof (continues_emit w
                        (EvLog DEBUG "Fetching detail for list id=%s" [get d "id"])
                        eq_refl) as Hcont0
      end.
      destruct rd as [detail|e].
      * unfold sleep. rewrite bind_emit.
        match goal with
        | |- context [extract_details P G rest ?acc ?w3] =>
            destruct (IH acc w3)
              as (r & w' & new & Hrun & Hcont & Hclock & Hlen & Hquiet & Hres);
            pose proof (continues_emit w2 (EvSleep 0.1) eq_refl) as Hcont2
        end.
        exists r, w', ((([EvLog DEBUG "Fetching detail for list id=%s" [get d "id"]]
                           ++ new1) ++ [EvSleep 0.1]) ++ new).
        split; [exact Hrun|].
        split; [repeat (eapply continues_trans; [|eassumption]); eassumption|].
        split; [cbn in *; congruence|].
        split; [rewrite !gets_app, !length_app; cbn; lia|].
        split.
        { repeat apply Forall_app_2; try done; by repeat constructor. }
        intros Ponly. split.
        -- intros Hall. inversion Hall as [|? ? _ Hrest]; subst.
           destruct (proj1 (Hres Ponly) Hrest) as (out & -> & Hout).
           exists out. split; [done|]. rewrite length_app in Hout. cbn in *. lia.
        -- intros Hnot. apply (proj2 (Hres Ponly)). intros Hrest. apply Hnot.
           constructor; [by eauto|done].
      * exists (Raise e), w2,
          ([EvLog DEBUG "Fetching detail for list id=%s" [get d "id"]] ++ new1).
        split; [reflexivity|].
        split; [by eapply continues_trans|].
        split; [cbn in *; congruence|].
        split; [rewrite gets_app, length_app; cbn; lia|].
        split; [apply Forall_app_2; [by repeat constructor|done]|].
        intros Ponly. by destruct (Hres1 Ponly).
Qed.

Lemma extract_unfold (P : platform) (G : globals) (endpoint : string) (w : world) :
  extract P G endpoint w =
  match (log INFO "Extracting %s" [VStr endpoint];;
         safe_get_json P G (rstrip slash (BASE_URL G) +:+ endpoint) VNone) w with
  | (Ok data, w1) =>
      (if is_None data then
         log WARNING "No data returned from %s" [VStr endpoint];; ret []
       else if bool_decide (endpoint = "/lists") then
         extract_details P G (match data with VList l => l | _ => [] end) []
       else
         match data with
         | VList l => ret l
         | VDict d =>
             match d !! "data" with
             | Some (VList l) => ret l
             | _ => ret [data]
             end
         | _ => ret []
         end) w1
  | (Raise e, w1) => (Raise e, w1)
  end.
Proof.
  unfold extract. unfold bind at 1. unfold bind at 1. unfold bind at 2.
  destruct (log INFO "Extracting %s" [VStr endpoint] w) as [[[]|e] w0]; [|done].
  unfold bind at 1.
  by destruct (safe_get_json P G _ VNone w0) as [[data|e] w1].
Qed.

(** X10.  For an endpoint other than "/lists", [extract] makes at most three
    GETs and never reads the clock; and when nothing but transport failures
    can come out of the server it returns normally, also when every attempt
    fails. *)
Theorem extract_other_endpoints_budget :
  forall (P : platform) (G : globals) (endpoint : string) (w : world),
    endpoint <> "/lists" ->
    exists r w' new,
      extract P G endpoint w = (r, w') /\
      trace w' = trace w ++ new /\
      (length (gets new) <= 3)%nat /\
      clock_reads w' = clock_reads w /\
      extracting new = [endpoint] /\
      (transport_only P -> exists out, r = Ok out).
Proof.
  intros P G endpoint w Hep. rewrite extract_unfold.
  unfold log at 1. rewrite bind_emit.
  match goal with
  | |- context [safe_get_json P G ?url VNone ?w0] =>
      destruct (safe_get_json_events P G url VNone w0)
        as (rd & w1 & new1 & Hrun1 & Hcont1 & Hclock1 & Hlen1 & Hquiet1 & Hres1);
      rewrite Hrun1
  end.
  destruct Hcont1 as (Htr1 & _ & _). cbn in Htr1, Hclock1.
  destruct rd as [data|e].
  - rewrite (bool_decide_eq_false_2 _ Hep).
    assert (Hbase : forall out (w2 : world) extra,
              trace w2 = trace w1 ++ extra -> gets extra = [] -> Forall quiet extra ->
              clock_reads w2 = clock_reads w1 ->
              exists r w' new,
                (Ok (A := list value) out, w2) = (r, w') /\
                trace w' = trace w ++ new /\
                (length (gets new) <= 3)%nat /\
                clock_reads w' = clock_reads w /\
                extracting new = [endpoint] /\
                (transport_only P -> exists out, r = Ok out)).
    { intros out w2 extra Htr2 Hg Hq Hc.
      exists (Ok out), w2, ([EvLog INFO "Extracting %s" [VStr endpoint]] ++ new1 ++ extra).
      split; [done|]. split; [by rewrite Htr2, Htr1, <- !app_assoc|].
      split; [rewrite !gets_app, !length_app, Hg; cbn; lia|].
      split; [congruence|]. split; [|by eauto].
      rewrite !extracting_app, (extracting_quiet new1 Hquiet1),
        (extracting_quiet extra Hq). reflexivity. }
    destruct data as [| | | | | |l|d]; cbn [is_None].
    + apply (Hbase [] _ [EvLog WARNING "No data returned from %s" [VStr endpoint]]);
        try done. by repeat constructor.
    + apply (Hbase [] w1 []); try done. by rewrite app_nil_r.
    + apply (Hbase [] w1 []); try done. by rewrite app_nil_r.
    + apply (Hbase [] w1 []); try done. by rewrite app_nil_r.
    + apply (Hbase [] w1 []); try done. by rewrite app_nil_r.
    + apply (Hbase [] w1 []); try done. by rewrite app_nil_r.
    + apply (Hbase l w1 []); try done. by rewrite app_nil_r.
    + destruct (d !! "data") as [[| | | | | |l|d']|];
        (eapply (Hbase _ w1 []); try done; by rewrite app_nil_r).
  - exists (Raise e), w1, ([EvLog INFO "Extracting %s" [VStr endpoint]] ++ new1).
    split; [done|]. split; [by rewrite Htr1, <- app_assoc|].
    split; [rewrite gets_app, length_app; cbn; lia|].
    split; [congruence|]. split.
    + by rewrite extracting_app, (extracting_quiet new1 Hquiet1).
    + intros Ponly. by destruct (Hres1 Ponly).
Qed.

Lemma unreachable_transport_only : transport_only unreachable.
Proof. intros n r. right. cbn. destruct (Nat.even n); [by left | by right]. Qed.

Lemma extract_other_endpoints_budget_witness :
  exists out w',
    extract unreachable default_globals "/tags" world0 = (Ok out, w') /\
    (length (gets (trace w')) <= 3)%nat.
Proof.
  destruct (extract_other_endpoints_budget unreachable default_globals "/tags"
              world0 ltac:(discriminate))
    as (r & w' & new & Hrun & Htrace & Hlen & _ & _ & Hok).
  destruct (Hok unreachable_transport_only) as (out & ->).
  exists out, w'. split; [exact Hrun|]. by rewrite Htrace.
Defined.

(** X11.  For "/lists", an answer that is not a sequence (the empty mapping
    of an exhausted fetch, a single object, null, a scalar) gives no
    records, and no further request is made. *)
Theorem extract_lists_non_sequence_is_empty :
  forall (P : platform) (G : globals) (w w1 : world) (data : value),
    (log INFO "Extracting %s" [VStr "/lists"];;
     safe_get_json P G (rstrip slash (BASE_URL G) +:+ "/lists") VNone) w
      = (Ok data, w1) ->
    (forall l, data <> VList l) ->
    exists w',
      extract P G "/lists" w = (Ok [], w') /\
      requests w' = requests w1 /\
      gets (trace w') = gets (trace w1).
Proof.
  intros P G w w1 data Hfetch Hdata. rewrite extract_unfold, Hfetch.
  destruct data as [| | | | | |l|d]; cbn [is_None]; try (by destruct (Hdata l));
    try (eexists; split; [reflexivity|]; by split).
  run_effects. eexists. split; [reflexivity|]. cbn. split; [done|].
  rewrite gets_app. cbn. by rewrite app_nil_r.
Qed.

Lemma extract_lists_non_sequence_is_empty_witness :
  exists w', extract unreachable default_globals "/lists" world0 = (Ok [], w').
Proof.
  destruct (safe_get_json_exhausted unreachable default_globals
              "https://api.filterlists.com/lists" VNone
              (World 0 0 [EvLog INFO "Extracting %s" [VStr "/lists"]]))
    as (w1 & Hrun).
  { intros [|[|[|k]]] Hk; cbn; [by left | by right | by left | lia]. }
  destruct (extract_lists_non_sequence_is_empty unreachable default_globals
              world0 w1 (VDict ∅) Hrun ltac:(discriminate)) as (w' & Hext & _).
  exists w'. exact Hext.
Defined.

Lemma extract_details_without_id (P : platform) (G : globals) (lists : list value) :
  forall detailed w,
    Forall (fun item => exists d, item = VDict d /\ get d "id" = VNone) lists ->
    extract_details P G lists detailed w = (Ok (detailed ++ lists), w).
Proof.
  induction lists as [|item rest IH]; intros detailed w Hall.
  - by rewrite app_nil_r.
  - inversion Hall as [|? ? (d & -> & Hid) Hrest]; subst.
    cbn [extract_details item_get]. rewrite bind_ret, Hid. cbn [is_None].
    rewrite IH by done. by rewrite <- app_assoc.
Qed.

(** X12.  For "/lists", when no item of the list view has an identifier
    (the key is missing or null), [extract] returns the list view as it
    is, in order, and makes no request beyond the one for the list. *)
Theorem extract_lists_items_without_id_kept :
  forall (P : platform) (G : globals) (w w1 : world) (lists : list value),
    (log INFO "Extracting %s" [VStr "/lists"];;
     safe_get_json P G (rstrip slash (BASE_URL G) +:+ "/lists") VNone) w
      = (Ok (VList lists), w1) ->
    Forall (fun item => exists d, item = VDict d /\ get d "id" = VNone) lists ->
    extract P G "/lists" w = (Ok lists, w1).
Proof.
  intros P G w w1 lists Hfetch Hall. rewrite extract_unfold, Hfetch.
  cbn [is_None]. rewrite bool_decide_eq_true_2 by done.
  by rewrite extract_details_without_id.
Qed.

Lemma extract_lists_items_without_id_kept_witness :
  exists w1,
    extract (Platform (fun _ _ => Ok (VList items_without_id))
                      sample_clock sample_isoformat sample_str)
            default_globals "/lists" world0 = (Ok items_without_id, w1) /\
    requests w1 = 1%nat.
Proof.
  eexists. split.
  - apply extract_lists_items_without_id_kept; [reflexivity|].
    repeat constructor; eexists; (split; [reflexivity|]); vm_compute; reflexivity.
  - reflexivity.
Defined.

(** X13.  For "/lists" on a list view of mappings, when nothing but
    transport failures can come out of the server, [extract] returns one
    record per item of the list view, having made at most three GETs per
    item after the one call for the list. *)
Theorem extract_lists_one_record_per_item :
  forall (P : platform) (G : globals) (w w1 : world) (lists : list value),
    (log INFO "Extracting %s" [VStr "/lists"];;
     safe_get_json P G (rstrip slash (BASE_URL G) +:+ "/lists") VNone) w
      = (Ok (VList lists), w1) ->
    transport_only P ->
    Forall (fun item => exists d, item = VDict d) lists ->
    exists out w',
      extract P G "/lists" w = (Ok out, w') /\
      length out = length lists /\
      (requests w' <= requests w1 + 3 * length lists)%nat.
Proof.
  intros P G w w1 lists Hfetch Ponly Hall. rewrite extract_unfold, Hfetch.
  cbn [is_None]. rewrite bool_decide_eq_true_2 by done.
  destruct (extract_details_events P G lists [] w1)
    as (r & w' & new & Hrun & Hcont & _ & Hlen & _ & Hres).
  destruct (proj1 (Hres Ponly) Hall) as (out & -> & Hout).
  exists out, w'. split; [exact Hrun|]. split; [exact Hout|].
  destruct Hcont as (_ & Hreq & _). lia.
Qed.

Lemma catalogue_transport_only : transport_only catalogue.
Proof.
  intros n r. cbn. repeat case_bool_decide; eauto.
  right. by right.
Qed.

Lemma extract_lists_one_record_per_item_witness :
  exists out w',
    extract catalogue default_globals "/lists" world0 = (Ok out, w') /\
    length out = 1%nat.
Proof.
  destruct (extract_lists_one_record_per_item catalogue default_globals world0
              _ [list_item_42] eq_refl catalogue_transport_only)
    as (out & w' & Hrun & Hlen & _).
  - repeat constructor. by eexists.
  - by exists out, w'.
Defined.

(** An item that is not a mapping stops the detail loop, whatever the
    server answers for the items before it. *)
Lemma extract_details_non_mapping_raises (P : platform) (G : globals)
    (lists : list value) :
  forall detailed w,
    ~ Forall (fun item => exists d, item = VDict d) lists ->
    exists e w', extract_details P G lists detailed w = (Raise e, w').
Proof.
  induction lists as [|item rest IH]; intros detailed w Hnot.
  - by destruct Hnot.
  - destruct item as [| | | | | | |d]; try (by eexists _, _).
    assert (Hrest : ~ Forall (fun item => exists d, item = VDict d) rest).
    { intros Hrest. apply Hnot. constructor; [by eauto|done]. }
    cbn [extract_details item_get]. rewrite bind_ret.
    destruct (is_None (get d "id")); [by apply IH|].
    unfold log. rewrite bind_emit. unfold bind at 1.
    match goal with
    | |- context [safe_get_json P G ?url VNone ?w1] =>
        destruct (safe_get_json P G url VNone w1) as [[detail|e] w2]
    end; [|by eexists _, _].
    unfold sleep. rewrite bind_emit. by apply IH.
Qed.

(** X14.  For "/lists", a list view holding an item that is not a mapping
    makes [extract] raise, whatever the server does: the records built from
    the other items are not returned.  When nothing but transport failures
    can come out of the server, the exception is the [AttributeError] of
    [item.get]; otherwise it may also be the exception of a detail fetch
    for an item before. *)
Theorem extract_lists_non_mapping_item_raises :
  forall (P : platform) (G : globals) (w w1 : world) (lists : list value),
    (log INFO "Extracting %s" [VStr "/lists"];;
     safe_get_json P G (rstrip slash (BASE_URL G) +:+ "/lists") VNone) w
      = (Ok (VList lists), w1) ->
    ~ Forall (fun item => exists d, item = VDict d) lists ->
    exists e w',
      extract P G "/lists" w = (Raise e, w') /\
      (transport_only P -> e = AttributeError).
Proof.
  intros P G w w1 lists Hfetch Hnot. rewrite extract_unfold, Hfetch.
  cbn [is_None]. rewrite bool_decide_eq_true_2 by done.
  destruct (extract_details_non_mapping_raises P G lists [] w1 Hnot)
    as (e & w' & Hraise).
  exists e, w'. split; [exact Hraise|]. intros Ponly.
  destruct (extract_details_events P G lists [] w1)
    as (r & w'' & new & Hrun & _ & _ & _ & _ & Hres).
  rewrite (proj2 (Hres Ponly) Hnot) in Hrun. congruence.
Qed.

Lemma extract_lists_non_mapping_item_raises_witness :
  exists w',
    extract (Platform (fun _ _ => Ok (VList [list_item_42; VStr "stray"]))
                      sample_clock sample_isoformat sample_str)
            default_globals "/lists" world0 = (Raise AttributeError, w').
Proof.
  destruct (extract_lists_non_mapping_item_raises
              (Platform (fun _ _ => Ok (VList [list_item_42; VStr "stray"]))
                        sample_clock sample_isoformat sample_str)
              default_globals world0 _ [list_item_42; VStr "stray"] eq_refl)
    as (e & w' & Hrun & He).
  - intros Hall. inversion Hall as [|? ? _ Hrest]; subst.
    inversion Hrest as [|? ? [d Hd] _]; subst. discriminate Hd.
  - exists w'. rewrite <- He; [exact Hrun|].
    intros n r. left. by eexists.
Defined.

(** Every call of [extract] announces its endpoint once, first, and then
    only makes fetches, detail logs and pauses. *)
Lemma extract_events (P : platform) (G : globals) (endpoint : string) (w : world) :
  exists r w' new,
    extract P G endpoint w = (r, w') /\
    continues w w' new /\
    clock_reads w' = clock_reads w /\
    extracting new = [endpoint] /\
    (endpoint <> "/lists" -> (length (gets new) <= 3)%nat).
Proof.
  destruct (decide (endpoint = "/lists")) as [->|Hep].
  - rewrite extract_unfold. unfold log at 1. rewrite bind_emit.
    match goal with
    | |- context [safe_get_json P G ?url VNone ?w0] =>
        destruct (safe_get_json_events P G url VNone w0)
          as (rd & w1 & new1 & Hrun1 & Hcont1 & Hclock1 & Hlen1 & Hquiet1 & _);
        rewrite Hrun1;
        pose proof (continues_emit w (EvLog INFO "Extracting %s" [VStr "/lists"])
                      eq_refl) as Hcont0
    end.
    cbn in Hclock1.
    destruct rd as [data|e].
    + destruct (is_None data) eqn:Hnone.
      * run_effects.
        pose proof (continues_emit w1
                      (EvLog WARNING "No data returned from %s" [VStr "/lists"])
                      eq_refl) as Hcont2.
        eexists _, _, (([_] ++ new1) ++ [_]). split; [reflexivity|].
        split; [eapply continues_trans; [by eapply continues_trans|exact Hcont2]|].
        split; [done|]. split; [|done].
        by rewrite !extracting_app, (extracting_quiet new1 Hquiet1).
      * rewrite bool_decide_eq_true_2 by done.
        match goal with
        | |- context [extract_details P G ?l [] w1] =>
            destruct (extract_details_events P G l [] w1)
              as (r & w' & new & Hrun & Hcont & Hclock & _ & Hquiet & _)
        end.
        exists r, w', (([EvLog INFO "Extracting %s" [VStr "/lists"]] ++ new1) ++ new).
        split; [exact Hrun|].
        split; [eapply continues_trans; [by eapply continues_trans|exact Hcont]|].
        split; [congruence|]. split; [|done].
        by rewrite !extracting_app, (extracting_quiet new1 Hquiet1),
          (extracting_quiet new Hquiet).
    + exists (Raise e), w1, ([EvLog INFO "Extracting %s" [VStr "/lists"]] ++ new1).
      split; [done|]. split; [by eapply continues_trans|].
      split; [done|]. split; [|done].
      by rewrite extracting_app, (extracting_quiet new1 Hquiet1).
  - rewrite extract_unfold. unfold log at 1. rewrite bind_emit.
    match goal with
    | |- context [safe_get_json P G ?url VNone ?w0] =>
        destruct (safe_get_json_events P G url VNone w0)
          as (rd & w1 & new1 & Hrun1 & Hcont1 & Hclock1 & Hlen1 & Hquiet1 & _);
        rewrite Hrun1;
        pose proof (continues_emit w (EvLog INFO "Extracting %s" [VStr endpoint])
                      eq_refl) as Hcont0
    end.
    cbn in Hclock1. rewrite (bool_decide_eq_false_2 _ Hep).
    assert (Hbase : forall (r : result (list value)) (w2 : world) extra,
              continues w1 w2 extra -> gets extra = [] -> Forall quiet extra ->
              clock_reads w2 = clock_reads w1 ->
              exists r' w' new,
                (r, w2) = (r', w') /\
                continues w w' new /\
                clock_reads w' = clock_reads w /\
                extracting new = [endpoint] /\
                (endpoint <> "/lists" -> (length (gets new) <= 3)%nat)).
    { intros r w2 extra Hcont2 Hg Hq Hc.
      exists r, w2, (([EvLog INFO "Extracting %s" [VStr endpoint]] ++ new1) ++ extra).
      split; [done|].
      split; [eapply continues_trans; [by eapply continues_trans|exact Hcont2]|].
      split; [congruence|]. split.
      - by rewrite !extracting_app, (extracting_quiet new1 Hquiet1),
          (extracting_quiet extra Hq).
      - intros _. rewrite !gets_app, !length_app, Hg. cbn. lia. }
    destruct rd as [data|e].
    + destruct data as [| | | | | |l|d]; cbn [is_None].
      * run_effects.
        apply (Hbase _ _ [EvLog WARNING "No data returned from %s" [VStr endpoint]]);
          try done; try (by apply continues_emit); by repeat constructor.
      * apply (Hbase _ w1 []); try done. apply continues_refl.
      * apply (Hbase _ w1 []); try done. apply continues_refl.
      * apply (Hbase _ w1 []); try done. apply continues_refl.
      * apply (Hbase _ w1 []); try done. apply continues_refl.
      * apply (Hbase _ w1 []); try done. apply continues_refl.
      * apply (Hbase _ w1 []); try done. apply continues_refl.
      * destruct (d !! "data") as [[| | | | | |l|d']|];
          (apply (Hbase _ w1 []); try done; apply continues_refl).
    + apply (Hbase _ w1 []); try done. apply continues_refl.
Qed.

(** ** Loading and the runner *)

Lemma run_continues_refl (s : Run.run_world) : run_continues s s [] [].
Proof. split; [apply continues_refl|by rewrite app_nil_r]. Qed.

Lemma run_continues_trans (s1 s2 s3 : Run.run_world) (n1 n2 : list event)
    (c1 c2 : list (string * list (gmap string value))) :
  run_continues s1 s2 n1 c1 -> run_continues s2 s3 n2 c2 ->
  run_continues s1 s3 (n1 ++ n2) (c1 ++ c2).
Proof.
  intros [H1 I1] [H2 I2]. split; [by eapply continues_trans|].
  by rewrite I2, I1, <- app_assoc.
Qed.

(** X15.  [load] never raises, whatever the store does.  On an empty batch
    it makes no bulk insert; on any other batch it makes exactly one, of
    the whole batch into the named collection, and does not try again.
    Either way it logs one line and makes no request. *)
Theorem load_one_bulk_insert_never_raises :
  forall (St : Run.store) (docs : list (gmap string value)) (collection : string)
         (s : Run.run_world),
    exists s' lvl msg args,
      Run.load St docs collection s = (Ok tt, s') /\
      Run.rw_inserts s' =
        Run.rw_inserts s ++ match docs with
                            | [] => []
                            | _ :: _ => [(collection, docs)]
                            end /\
      trace (Run.rw_world s') = trace (Run.rw_world s) ++ [EvLog lvl msg args] /\
      requests (Run.rw_world s') = requests (Run.rw_world s) /\
      clock_reads (Run.rw_world s') = clock_reads (Run.rw_world s).
Proof.
  intros St docs collection s. destruct docs as [|doc docs].
  - eexists _, _, _, _. split; [reflexivity|]. cbn. by rewrite app_nil_r.
  - unfold Run.load, Run.col_insert_many.
    destruct (Run.insert_many St _ collection (doc :: docs)) as [[|id0 ids]|e];
      eexists _, _, _, _; (split; [reflexivity|]); done.
Qed.

Lemma run_load_continues (St : Run.store) (docs : list (gmap string value))
    (collection : string) (s : Run.run_world) :
  exists s' lvl msg args,
    Run.load St docs collection s = (Ok tt, s') /\
    run_continues s s' [EvLog lvl msg args]
      (match docs with [] => [] | _ :: _ => [(collection, docs)] end) /\
    quiet (EvLog lvl msg args) /\
    clock_reads (Run.rw_world s') = clock_reads (Run.rw_world s).
Proof.
  destruct docs as [|doc docs].
  - eexists _, _, _, _. split; [reflexivity|].
    split; [split; [by apply continues_emit|cbn; by rewrite app_nil_r]|].
    by split.
  - unfold Run.load, Run.col_insert_many.
    destruct (Run.insert_many St _ collection (doc :: docs)) as [[|id0 ids]|e];
      eexists _, _, _, _; (split; [reflexivity|]);
      (split; [split; [by apply continues_emit|done]|]); by split.
Qed.

Lemma transform_values_events (P : platform) (G : globals)
    (records : list value) (endpoint : string) (w : world) :
  exists r w' new,
    transform_values P G records endpoint w = (r, w') /\
    continues w w' new /\ gets new = [] /\ Forall quiet new /\
    (clock_reads w' <= S (clock_reads w))%nat.
Proof.
  eexists _, _, [_]. split; [reflexivity|]. unfold continues. cbn.
  repeat split; auto with lia. by repeat constructor.
Qed.

(** One endpoint inside a run: what it adds to the trace and to the store. *)
Lemma run_process_events (P : platform) (G : globals) (St : Run.store)
    (ep : string) (s : Run.run_world) :
  exists r s' new calls,
    Run.process P G St ep s = (r, s') /\
    run_continues s s' new calls /\
    extracting new = [ep] /\
    (calls = [] \/
     exists docs, docs <> [] /\ calls = [(endpoint_to_collection ep, docs)]) /\
    (ep <> "/lists" -> (length (gets new) <= 3)%nat) /\
    (clock_reads (Run.rw_world s') <= S (clock_reads (Run.rw_world s)))%nat.
Proof.
  unfold Run.process. unfold Run.bind at 1.
  destruct (extract_events P G ep (Run.rw_world s))
    as (r1 & w1 & new1 & Hrun1 & Hcont1 & Hclock1 & Hext1 & Hlen1).
  assert (Run.lift (extract P G ep) s = (r1, Run.RunWorld w1 (Run.rw_inserts s)))
    as -> by (unfold Run.lift; by rewrite Hrun1).
  set (s1 := Run.RunWorld w1 (Run.rw_inserts s)).
  assert (run_continues s s1 new1 []) as Hrc1
    by (split; [done|cbn; by rewrite app_nil_r]).
  destruct r1 as [raw|e].
  2: { exists (Raise e), s1, new1, []. repeat split; try apply Hrc1; auto.
       cbn. lia. }
  unfold Run.bind at 1.
  destruct (transform_values_events P G raw ep w1)
    as (r2 & w2 & new2 & Hrun2 & Hcont2 & Hgets2 & Hquiet2 & Hclock2).
  assert (Run.lift (transform_values P G raw ep) s1
          = (r2, Run.RunWorld w2 (Run.rw_inserts s))) as ->
    by (unfold Run.lift, s1; cbn [Run.rw_world Run.rw_inserts]; by rewrite Hrun2).
  set (s2 := Run.RunWorld w2 (Run.rw_inserts s)).
  assert (run_continues s1 s2 new2 []) as Hrc2
    by (split; [done|cbn; by rewrite app_nil_r]).
  destruct r2 as [docs|e].
  2: { exists (Raise e), s2, (new1 ++ new2), ([] ++ []).
       split; [done|]. split; [by eapply run_continues_trans|].
       split; [by rewrite extracting_app, Hext1, (extracting_quiet new2 Hquiet2)|].
       split; [by left|]. split.
       - intros Hep. rewrite gets_app, length_app, Hgets2. cbn.
         specialize (Hlen1 Hep). lia.
       - cbn in *. lia. }
  unfold Run.bind at 1.
  destruct (run_load_continues St docs (endpoint_to_collection ep) s2)
    as (s3 & lvl & msg & args & -> & Hrc3 & Hquiet3 & Hclock3).
  assert (exists s4,
            Run.lift (sleep 0.2) s3 = (Ok tt, s4) /\
            run_continues s3 s4 [EvSleep 0.2] [] /\
            clock_reads (Run.rw_world s4) = clock_reads (Run.rw_world s3))
    as (s4 & -> & Hrc4 & Hclock4).
  { eexists. split; [reflexivity|]. split; [|done].
    split; [by apply continues_emit|]. cbn. by rewrite app_nil_r. }
  eexists (Ok tt), s4, (((new1 ++ new2) ++ [EvLog lvl msg args]) ++ [EvSleep 0.2]), _.
  split; [done|].
  split.
  { eapply run_continues_trans; [|exact Hrc4].
    eapply run_continues_trans; [|exact Hrc3].
    eapply run_continues_trans; eassumption. }
  split.
  { rewrite !extracting_app, Hext1, (extracting_quiet new2 Hquiet2), Hquiet3.
    reflexivity. }
  split.
  { destruct docs as [|doc docs]; [by left|]. right.
    exists (doc :: docs). by split. }
  split.
  - intros Hep. rewrite !gets_app, !length_app, Hgets2. cbn.
    specialize (Hlen1 Hep). lia.
  - cbn in *. lia.
Qed.

Lemma run_endpoints_events (P : platform) (G : globals) (St : Run.store)
    (endpoints : list string) :
  forall s,
    exists s' new calls,
      Run.run_endpoints P G St endpoints s = (Ok tt, s') /\
      run_continues s s' new calls /\
      extracting new = endpoints /\
      calls.*1 `sublist_of` (endpoint_to_collection <$> endpoints) /\
      Forall (fun call => call.2 <> []) calls /\
      ("/lists" ∉ endpoints -> (length (gets new) <= 3 * length endpoints)%nat) /\
      (clock_reads (Run.rw_world s')
       <= clock_reads (Run.rw_world s) + length endpoints)%nat.
Proof.
  induction endpoints as [|ep rest IH]; intros s.
  - exists s, [], []. split; [done|]. split; [apply run_continues_refl|].
    repeat split; try done; cbn; lia.
  - cbn [Run.run_endpoints].
    destruct (run_process_events P G St ep s)
      as (r & s1 & new1 & calls1 & -> & Hrc1 & Hext1 & Hcalls1 & Hlen1 & Hclock1).
    assert (exists s2 new2,
              (match r with
               | Ok _ => Run.run_endpoints P G St rest s1
               | Raise e =>
                   (Run.bind
                      (Run.lift (log ERROR "Unhandled error processing %s: %s"
                                     [VStr ep]))
                      (fun _ => Run.run_endpoints P G St rest)) s1
               end) = Run.run_endpoints P G St rest s2 /\
              run_continues s1 s2 new2 [] /\ Forall quiet new2 /\ gets new2 = [] /\
              clock_reads (Run.rw_world s2) = clock_reads (Run.rw_world s1))
      as (s2 & new2 & Hstep & Hrc2 & Hquiet2 & Hgets2 & Hclock2).
    { destruct r as [[]|e].
      - exists s1, []. split; [done|]. split; [apply run_continues_refl|]. by repeat split.
      - eexists _, [_]. split; [reflexivity|].
        split; [split; [by apply continues_emit|cbn; by rewrite app_nil_r]|].
        repeat split. by repeat constructor. }
    destruct (IH s2) as (s' & new & calls & Hrun & Hrc & Hext & Hsub & Hne & Hlen & Hclock).
    exists s', ((new1 ++ new2) ++ new), ((calls1 ++ []) ++ calls).
    split.
    { destruct r as [[]|e]; [by rewrite <- Hrun, <- Hstep|].
      by rewrite <- Hrun, <- Hstep. }
    split; [eapply run_continues_trans; [by eapply run_continues_trans|done]|].
    split.
    { by rewrite !extracting_app, Hext1, (extracting_quiet new2 Hquiet2), Hext. }
    rewrite app_nil_r. split.
    { destruct Hcalls1 as [-> | (docs & _ & ->)]; cbn.
      - by apply sublist_cons.
      - by apply sublist_skip. }
    split.
    { apply Forall_app_2; [|done].
      destruct Hcalls1 as [-> | (docs & Hdocs & ->)]; by repeat constructor. }
    split.
    + intros Hlists. rewrite !gets_app, !length_app, Hgets2. cbn.
      assert (ep <> "/lists") as Hep by (intros ->; apply Hlists; by left).
      assert ("/lists" ∉ rest) as Hrest by (intros Hin; apply Hlists; by right).
      specialize (Hlen1 Hep). specialize (Hlen Hrest). lia.
    + cbn. lia.
Qed.

(** X16.  [run_etl] never raises, and it goes through every endpoint of its
    selection in order, whatever happens to the endpoints before: the trace
    of the run announces the extraction of each one, once.  A missing or
    empty selection means the six default endpoints. *)
Theorem run_etl_goes_through_every_endpoint :
  forall (P : platform) (G : globals) (St : Run.store)
         (selected : option (list string)) (s : Run.run_world),
    exists s' new,
      Run.run_etl P G St selected s = (Ok tt, s') /\
      trace (Run.rw_world s') = trace (Run.rw_world s) ++ new /\
      extracting new = selected_or_default selected /\
      (selected = None \/ selected = Some [] ->
       extracting new = ["/languages"; "/licenses"; "/maintainers"; "/software";
                         "/syntaxes"; "/tags"]).
Proof.
  intros P G St selected s.
  destruct (run_endpoints_events P G St (selected_or_default selected) s)
    as (s' & new & calls & Hrun & [Hcont _] & Hext & _).
  exists s', new. split; [exact Hrun|]. split; [apply Hcont|]. split; [done|].
  intros [-> | ->]; exact Hext.
Qed.

Lemma run_etl_goes_through_every_endpoint_witness :
  exists s',
    Run.run_etl unreachable default_globals refusing (Some []) Run.run_world0
      = (Ok tt, s') /\
    extracting (trace (Run.rw_world s')) =
      ["/languages"; "/licenses"; "/maintainers"; "/software"; "/syntaxes"; "/tags"].
Proof.
  destruct (run_etl_goes_through_every_endpoint unreachable default_globals
              refusing (Some []) Run.run_world0)
    as (s' & new & Hrun & Htrace & _ & Hdefault).
  exists s'. split; [exact Hrun|]. rewrite Htrace. apply Hdefault. by right.
Defined.

(** X17.  A run makes at most one bulk insert per endpoint, in the order of
    the endpoints, each into the collection of its endpoint, and never of
    an empty batch. *)
Theorem run_etl_one_bulk_insert_per_endpoint :
  forall (P : platform) (G : globals) (St : Run.store)
         (selected : option (list string)) (s : Run.run_world),
    exists s' calls,
      Run.run_etl P G St selected s = (Ok tt, s') /\
      Run.rw_inserts s' = Run.rw_inserts s ++ calls /\
      calls.*1 `sublist_of` (endpoint_to_collection <$> selected_or_default selected) /\
      Forall (fun call => call.2 <> []) calls.
Proof.
  intros P G St selected s.
  destruct (run_endpoints_events P G St (selected_or_default selected) s)
    as (s' & new & calls & Hrun & [_ Hins] & _ & Hsub & Hne & _).
  by exists s', calls.
Qed.

(** X18.  A run over endpoints that do not include "/lists" (the default
    endpoints do not) makes at most three GETs per endpoint and reads the
    clock at most once per endpoint. *)
Theorem run_etl_request_budget :
  forall (P : platform) (G : globals) (St : Run.store)
         (selected : option (list string)) (s : Run.run_world),
    "/lists" ∉ selected_or_default selected ->
    exists s',
      Run.run_etl P G St selected s = (Ok tt, s') /\
      (requests (Run.rw_world s')
       <= requests (Run.rw_world s) + 3 * length (selected_or_default selected))%nat /\
      (clock_reads (Run.rw_world s')
       <= clock_reads (Run.rw_world s) + length (selected_or_default selected))%nat.
Proof.
  intros P G St selected s Hlists.
  destruct (run_endpoints_events P G St (selected_or_default selected) s)
    as (s' & new & calls & Hrun & [(_ & Hreq & _) _] & _ & _ & _ & Hlen & Hclock).
  exists s'. split; [exact Hrun|]. specialize (Hlen Hlists). split; lia.
Qed.

Lemma run_etl_request_budget_witness :
  exists s',
    Run.run_etl unreachable default_globals accepting None Run.run_world0
      = (Ok tt, s') /\
    (requests (Run.rw_world s') <= 18)%nat.
Proof.
  destruct (run_etl_request_budget unreachable default_globals accepting None
              Run.run_world0) as (s' & Hrun & Hreq & _).
  - cbn. unfold ENDPOINTS. set_solver.
  - exists s'. split; [exact Hrun|]. cbn in Hreq. lia.
Defined.

Lemma run_process_after_extract (P : platform) (G : globals) (St : Run.store)
    (ep : string) (s : Run.run_world) (r : result (list value)) (w1 : world) :
  extract P G ep (Run.rw_world s) = (r, w1) ->
  exists r' s',
    Run.process P G St ep s = (r', s') /\
    Run.rw_inserts s' =
      Run.rw_inserts s ++
      match r with
      | Ok raw =>
          match (transform_values P G raw ep w1).1 with
          | Ok (doc :: docs) => [(endpoint_to_collection ep, doc :: docs)]
          | _ => []
          end
      | Raise _ => []
      end.
Proof.
  intros Hext. unfold Run.process. unfold Run.bind at 1.
  assert (Run.lift (extract P G ep) s = (r, Run.RunWorld w1 (Run.rw_inserts s)))
    as -> by (unfold Run.lift; by rewrite Hext).
  destruct r as [raw|e]; [|eexists _, _; split; [reflexivity|]; cbn; by rewrite app_nil_r].
  unfold Run.bind at 1. unfold Run.lift at 1. cbn [Run.rw_world Run.rw_inserts].
  destruct (transform_values P G raw ep w1) as [[docs|e] w2];
    [|eexists _, _; split; [reflexivity|]; cbn; by rewrite app_nil_r].
  unfold Run.bind at 1.
  destruct (run_load_continues St docs (endpoint_to_collection ep)
              (Run.RunWorld w2 (Run.rw_inserts s)))
    as (s3 & lvl & msg & args & -> & [_ Hins] & _).
  eexists _, _. split; [reflexivity|]. cbn in *. rewrite Hins.
  by destruct docs.
Qed.

(** The loop of [run_etl] goes on to the next endpoint whatever the body
    did, with the bulk inserts the body made. *)
Lemma run_endpoints_cons (P : platform) (G : globals) (St : Run.store)
    (ep : string) (rest : list string) (s : Run.run_world) :
  exists s2,
    Run.run_endpoints P G St (ep :: rest) s = Run.run_endpoints P G St rest s2 /\
    Run.rw_inserts s2 = Run.rw_inserts (Run.process P G St ep s).2.
Proof.
  cbn [Run.run_endpoints].
  destruct (Run.process P G St ep s) as [[[]|e] s1].
  - by exists s1.
  - eexists. split; [reflexivity|done].
Qed.

Lemma run_endpoints_app (P : platform) (G : globals) (St : Run.store)
    (pre post : list string) :
  forall s,
    Run.run_endpoints P G St (pre ++ post) s =
    Run.run_endpoints P G St post (Run.run_endpoints P G St pre s).2.
Proof.
  induction pre as [|ep rest IH]; intros s; [done|].
  rewrite <- app_comm_cons. cbn [Run.run_endpoints].
  destruct (Run.process P G St ep s) as [[[]|e] s1]; [apply IH|].
  exact (IH _).
Qed.

(** One endpoint inside a run: the bulk inserts of the run are those made
    before it, then its own, then those of the endpoints after it. *)
Lemma run_endpoint_inside (P : platform) (G : globals) (St : Run.store)
    (pre : list string) (ep : string) (post : list string)
    (s s1 : Run.run_world) (r : result (list value)) (w1 : world) :
  Run.run_endpoints P G St pre s = (Ok tt, s1) ->
  extract P G ep (Run.rw_world s1) = (r, w1) ->
  exists s2 s' later,
    Run.run_etl P G St (Some (pre ++ ep :: post)) s = (Ok tt, s') /\
    Run.run_endpoints P G St post s2 = (Ok tt, s') /\
    Run.rw_inserts s2 =
      Run.rw_inserts s1 ++
      match r with
      | Ok raw =>
          match (transform_values P G raw ep w1).1 with
          | Ok (doc :: docs) => [(endpoint_to_collection ep, doc :: docs)]
          | _ => []
          end
      | Raise _ => []
      end /\
    Run.rw_inserts s' = Run.rw_inserts s2 ++ later /\
    later.*1 `sublist_of` (endpoint_to_collection <$> post).
Proof.
  intros Hpre Hext.
  assert (Run.run_etl P G St (Some (pre ++ ep :: post)) s =
          Run.run_endpoints P G St (pre ++ ep :: post) s) as ->
    by (unfold Run.run_etl; by destruct pre).
  rewrite run_endpoints_app, Hpre. cbn [snd].
  destruct (run_endpoints_cons P G St ep post s1) as (s2 & -> & Hins2).
  destruct (run_process_after_extract P G St ep s1 r w1 Hext)
    as (r' & s1' & Hproc & Hins).
  rewrite Hproc in Hins2. cbn [snd] in Hins2. rewrite Hins in Hins2.
  destruct (run_endpoints_events P G St post s2)
    as (s' & new & later & Hrun & [_ Hlater] & _ & Hsub & _).
  exists s2, s', later. split; [exact Hrun|]. split; [exact Hrun|].
  split; [exact Hins2|]. split; [exact Hlater|exact Hsub].
Qed.

(** X19.  An endpoint of a run other than "/lists" that cannot be reached
    still gets a bulk insert: the empty mapping of the exhausted fetch is
    wrapped as a single record, so the run calls [insert_many] once for the
    endpoint's collection, with one document whose [data] is empty, whose
    source identifier is null and whose index is 1.  The call comes after
    those of the endpoints before it and before those of the endpoints
    after it; whether the document is stored is up to the store. *)
Theorem run_etl_unreachable_endpoint_stores_empty_document :
  forall (P : platform) (G : globals) (St : Run.store)
         (pre : list string) (ep : string) (post : list string)
         (s s1 : Run.run_world),
    ep <> "/lists" ->
    Run.run_endpoints P G St pre s = (Ok tt, s1) ->
    (forall k, (k < 3)%nat ->
       transport_failure
         (net P (requests (Run.rw_world s1) + k)
              (Request (rstrip slash (BASE_URL G) +:+ ep) VNone (REQUEST_TIMEOUT G)))) ->
    exists s2 s' doc later,
      Run.run_etl P G St (Some (pre ++ ep :: post)) s = (Ok tt, s') /\
      Run.run_endpoints P G St post s2 = (Ok tt, s') /\
      Run.rw_inserts s2 = Run.rw_inserts s1 ++ [(endpoint_to_collection ep, [doc])] /\
      Run.rw_inserts s' =
        Run.rw_inserts s1 ++ (endpoint_to_collection ep, [doc]) :: later /\
      later.*1 `sublist_of` (endpoint_to_collection <$> post) /\
      doc !! "data" = Some (VDict ∅) /\
      doc !! "_source_id" = Some VNone /\
      doc !! "record_index" = Some (VInt 1).
Proof.
  intros P G St pre ep post s s1 Hep Hpre Hfail.
  assert (exists w1, extract P G ep (Run.rw_world s1) = (Ok [VDict ∅], w1))
    as (w1 & Hext).
  { rewrite extract_unfold. unfold log at 1. rewrite bind_emit.
    match goal with
    | |- context [safe_get_json P G ?url VNone ?w0] =>
        destruct (safe_get_json_exhausted P G url VNone w0 Hfail) as (w1 & ->)
    end.
    cbn [is_None]. rewrite (bool_decide_eq_false_2 _ Hep), lookup_empty.
    by eexists. }
  destruct (run_endpoint_inside P G St pre ep post s s1 _ w1 Hpre Hext)
    as (s2 & s' & later & Hrun & Hpost & Hins2 & Hins & Hsub).
  eexists s2, s', _, later. split; [exact Hrun|]. split; [exact Hpost|].
  split; [exact Hins2|].
  split; [rewrite Hins, Hins2, <- app_assoc; reflexivity|].
  split; [exact Hsub|].
  rewrite !flatten_lookup_envelope_key by set_solver.
  assert (clean_record ∅ = ∅) as -> by apply map_filter_empty.
  repeat split.
Qed.

Lemma unreachable_fails (n : nat) (r : request) :
  transport_failure (net unreachable n r).
Proof. cbn. destruct (Nat.even n); [by left | by right]. Qed.

Lemma run_etl_unreachable_endpoint_stores_empty_document_witness :
  exists s1 s' doc later,
    Run.run_endpoints unreachable default_globals accepting ["/languages"]
                      Run.run_world0 = (Ok tt, s1) /\
    Run.run_etl unreachable default_globals accepting
                (Some ["/languages"; "/tags"; "/software"]) Run.run_world0
      = (Ok tt, s') /\
    Run.rw_inserts s' = Run.rw_inserts s1 ++ ("tags_raw", [doc]) :: later /\
    doc !! "data" = Some (VDict ∅).
Proof.
  destruct (run_endpoints_events unreachable default_globals accepting
              ["/languages"] Run.run_world0) as (s1 & _ & _ & Hpre & _).
  destruct (run_etl_unreachable_endpoint_stores_empty_document
              unreachable default_globals accepting ["/languages"] "/tags"
              ["/software"] Run.run_world0 s1 ltac:(discriminate) Hpre)
    as (s2 & s' & doc & later & Hrun & _ & _ & Hins & _ & Hdata & _).
  - intros k _. apply unreachable_fails.
  - exists s1, s', doc, later. split; [exact Hpre|]. split; [exact Hrun|].
    split; [exact Hins|exact Hdata].
Defined.

(** X20.  An endpoint of a run whose extraction raises, or yields no
    record, leaves the store untouched: the run makes no bulk insert for
    it, and goes on to the endpoints after it with the inserts made before
    it. *)
Theorem run_etl_nothing_extracted_nothing_inserted :
  forall (P : platform) (G : globals) (St : Run.store)
         (pre : list string) (ep : string) (post : list string)
         (s s1 : Run.run_world) (r : result (list value)) (w1 : world),
    Run.run_endpoints P G St pre s = (Ok tt, s1) ->
    extract P G ep (Run.rw_world s1) = (r, w1) ->
    r = Ok [] \/ (exists e, r = Raise e) ->
    exists s2 s' later,
      Run.run_etl P G St (Some (pre ++ ep :: post)) s = (Ok tt, s') /\
      Run.run_endpoints P G St post s2 = (Ok tt, s') /\
      Run.rw_inserts s2 = Run.rw_inserts s1 /\
      Run.rw_inserts s' = Run.rw_inserts s1 ++ later /\
      later.*1 `sublist_of` (endpoint_to_collection <$> post).
Proof.
  intros P G St pre ep post s s1 r w1 Hpre Hext Hr.
  destruct (run_endpoint_inside P G St pre ep post s s1 r w1 Hpre Hext)
    as (s2 & s' & later & Hrun & Hpost & Hins2 & Hins & Hsub).
  assert (Run.rw_inserts s2 = Run.rw_inserts s1) as Hsame.
  { rewrite Hins2. destruct Hr as [-> | (e & ->)]; cbn; by rewrite app_nil_r. }
  exists s2, s', later. split; [exact Hrun|]. split; [exact Hpost|].
  split; [exact Hsame|]. split; [by rewrite Hins, Hsame|exact Hsub].
Qed.

Lemma extract_unreachable_lists (w : world) :
  exists w1, extract unreachable default_globals "/lists" w = (Ok [], w1).
Proof.
  rewrite extract_unfold. unfold log at 1. rewrite bind_emit.
  match goal with
  | |- context [safe_get_json unreachable default_globals ?url VNone ?w0] =>
      destruct (safe_get_json_exhausted unreachable default_globals url VNone w0)
        as (w1 & ->)
  end.
  - intros k _. apply unreachable_fails.
  - cbn [is_None]. rewrite bool_decide_eq_true_2 by done. by eexists.
Qed.

Lemma run_etl_nothing_extracted_nothing_inserted_witness :
  exists s1 s' later,
    Run.run_endpoints unreachable default_globals accepting ["/tags"]
                      Run.run_world0 = (Ok tt, s1) /\
    Run.run_etl unreachable default_globals accepting
                (Some ["/tags"; "/lists"; "/tags"]) Run.run_world0 = (Ok tt, s') /\
    Run.rw_inserts s' = Run.rw_inserts s1 ++ later /\
    (length later <= 1)%nat.
Proof.
  destruct (run_endpoints_events unreachable default_globals accepting
              ["/tags"] Run.run_world0) as (s1 & _ & _ & Hpre & _).
  destruct (extract_unreachable_lists (Run.rw_world s1)) as (w1 & Hext).
  destruct (run_etl_nothing_extracted_nothing_inserted unreachable default_globals
              accepting ["/tags"] "/lists" ["/tags"] Run.run_world0 s1 (Ok []) w1
              Hpre Hext)
    as (s2 & s' & later & Hrun & _ & _ & Hins & Hsub).
  - by left.
  - exists s1, s', later. split; [exact Hpre|]. split; [exact Hrun|].
    split; [exact Hins|].
    apply sublist_length in Hsub. rewrite length_fmap in Hsub. exact Hsub.
Defined.

(** X21.  Started from the entry point, a run only processes endpoints that
    begin with a separator: the normalised forms of the endpoints given on
    the command line, in order, and the six default endpoints when none is
    given. *)
Theorem main_endpoints_start_with_separator :
  forall (P : platform) (G : globals) (St : Run.store)
         (endpoints : option (list string)) (s : Run.run_world),
    exists s' new,
      Run.main P G St endpoints s = (Ok tt, s') /\
      trace (Run.rw_world s') = trace (Run.rw_world s) ++ new /\
      Forall (fun ep => startswith_slash ep = true) (extracting new) /\
      (forall eps, endpoints = Some eps -> eps <> [] ->
                   extracting new = normalized <$> eps) /\
      (endpoints = None \/ endpoints = Some [] ->
       extracting new = ["/languages"; "/licenses"; "/maintainers"; "/software";
                         "/syntaxes"; "/tags"]).
Proof.
  intros P G St endpoints s.
  assert (Hall : forall eps, Forall (fun ep => startswith_slash ep = true)
                                    (normalized <$> eps)).
  { intros eps. apply Forall_fmap, Forall_forall. intros ep _.
    apply normalized_startswith. }
  assert (Hrun : forall eps,
            exists s' new,
              Run.run_endpoints P G St eps s = (Ok tt, s') /\
              trace (Run.rw_world s') = trace (Run.rw_world s) ++ new /\
              extracting new = eps).
  { intros eps.
    destruct (run_endpoints_events P G St eps s)
      as (s' & new & calls & Hrun & [Hcont _] & Hext & _).
    exists s', new. split; [exact Hrun|]. split; [apply Hcont|done]. }
  destruct endpoints as [[|ep rest]|].
  - destruct (Hrun ENDPOINTS) as (s' & new & Hrun' & Htrace & Hext).
    exists s', new. split; [exact Hrun'|]. split; [exact Htrace|].
    split; [rewrite Hext; by repeat constructor|].
    split; [by intros eps [= <-]|]. intros _. exact Hext.
  - destruct (Hrun (normalized <$> (ep :: rest))) as (s' & new & Hrun' & Htrace & Hext).
    exists s', new. split; [exact Hrun'|]. split; [exact Htrace|].
    split; [rewrite Hext; apply (Hall (ep :: rest))|].
    split; [by intros eps [= <-]|]. intros [H|H]; discriminate H.
  - destruct (Hrun ENDPOINTS) as (s' & new & Hrun' & Htrace & Hext).
    exists s', new. split; [exact Hrun'|]. split; [exact Htrace|].
    split; [rewrite Hext; by repeat constructor|].
    split; [done|]. intros _. exact Hext.
Qed.

Lemma main_endpoints_start_with_separator_witness :
  exists s',
    Run.main unreachable default_globals accepting (Some ["tags"; "/lists"])
             Run.run_world0 = (Ok tt, s') /\
    extracting (trace (Run.rw_world s')) = ["/tags"; "/lists"].
Proof.
  destruct (main_endpoints_start_with_separator unreachable default_globals
              accepting (Some ["tags"; "/lists"]) Run.run_world0)
    as (s' & new & Hrun & Htrace & _ & Hext & _).
  exists s'. split; [exact Hrun|]. rewrite Htrace.
  apply (Hext ["tags"; "/lists"]); [reflexivity|discriminate].
Defined.

(** ** More on fetching *)

Lemma safe_get_json_loop_never_transport (P : platform) (G : globals)
    (url : string) (params : value) (attempts : list Z) :
  forall w,
    ~ transport_failure (safe_get_json_loop P G attempts url params w).1.
Proof.
  induction attempts as [|attempt rest IH]; intros w.
  - intros [H|H]; discriminate H.
  - destruct (transport_failure_dec
                (net P (requests w) (Request url params (REQUEST_TIMEOUT G))))
      as [Hfail|Hok].
    + destruct (safe_get_json_loop_failed_attempt P G url params attempt rest w Hfail)
        as (w1 & warning & -> & _). apply IH.
    + destruct (safe_get_json_loop_decided P G url params 0 (attempt :: rest) w _
                  ltac:(cbn; lia) ltac:(intros; lia)
                  ltac:(rewrite Nat.add_0_r; reflexivity) Hok)
        as (w' & new & -> & _). exact Hok.
Qed.

(** X22.  Whatever the server does, [safe_get_json] never lets a timeout or
    another [requests] exception reach its caller. *)
Theorem safe_get_json_never_raises_transport_errors :
  forall (P : platform) (G : globals) (url : string) (params : value) (w : world),
    (safe_get_json P G url params w).1 <> Raise Timeout /\
    (safe_get_json P G url params w).1 <> Raise RequestException.
Proof.
  intros P G url params w.
  pose proof (safe_get_json_loop_never_transport P G url params [0; 1; 2] w) as Hnever.
  unfold safe_get_json. split; intros Heq; apply Hnever; [by left | by right].
Qed.

Lemma safe_get_json_loop_same_config (P : platform) (G G' : globals)
    (url : string) (params : value) (attempts : list Z) :
  REQUEST_TIMEOUT G = REQUEST_TIMEOUT G' ->
  forall w,
    safe_get_json_loop P G attempts url params w =
    safe_get_json_loop P G' attempts url params w.
Proof.
  intros Htimeout. induction attempts as [|attempt rest IH]; intros w; [done|].
  cbn [safe_get_json_loop]. rewrite Htimeout.
  destruct (session_get P url params (REQUEST_TIMEOUT G') w) as [[v|[]] w1];
    try done; run_effects; apply IH.
Qed.

Lemma extract_details_same_config (P : platform) (G G' : globals)
    (lists : list value) :
  rstrip slash (BASE_URL G) = rstrip slash (BASE_URL G') ->
  REQUEST_TIMEOUT G = REQUEST_TIMEOUT G' ->
  forall detailed w,
    extract_details P G lists detailed w = extract_details P G' lists detailed w.
Proof.
  intros Hbase Htimeout.
  induction lists as [|item rest IH]; intros detailed w; [done|].
  destruct item as [| | | | | | |d]; try reflexivity.
  cbn [extract_details item_get]. rewrite !bind_ret.
  destruct (is_None (get d "id")); [apply IH|].
  rewrite Hbase. unfold log. rewrite !bind_emit.
  match goal with
  | |- bind ?m ?k1 ?w1 = bind ?m' ?k2 ?w1 =>
      assert (m w1 = m' w1) as Hfetch
        by (unfold safe_get_json;
            apply (safe_get_json_loop_same_config P G G' _ VNone [0; 1; 2] Htimeout));
      unfold bind at 1; rewrite Hfetch; unfold bind at 2;
      destruct (m' w1) as [[detail|e] w2]; [|done]
  end.
  unfold sleep. rewrite !bind_emit. apply IH.
Qed.

(** X23.  Trailing separators on the configured base URL make no
    difference to [extract]: it makes the same requests and returns the
    same records as with the base URL without them. *)
Theorem extract_ignores_trailing_separators_of_base :
  forall (P : platform) (G G' : globals) (n : nat) (endpoint : string) (w : world),
    BASE_URL G' = BASE_URL G +:+ slashes n ->
    REQUEST_TIMEOUT G' = REQUEST_TIMEOUT G ->
    extract P G' endpoint w = extract P G endpoint w.
Proof.
  intros P G G' n endpoint w Hbase Htimeout.
  assert (rstrip slash (BASE_URL G') = rstrip slash (BASE_URL G)) as Hstrip
    by (rewrite Hbase; apply rstrip_app_slashes).
  rewrite !extract_unfold. unfold log at 1 3. rewrite !bind_emit.
  rewrite Hstrip. unfold safe_get_json.
  rewrite (safe_get_json_loop_same_config P G' G _ VNone [0; 1; 2] Htimeout).
  destruct (safe_get_json_loop P G [0; 1; 2] _ VNone _) as [[data|e] w1]; [|done].
  destruct (is_None data); [done|].
  case_bool_decide; [|done].
  by apply extract_details_same_config.
Qed.

Lemma extract_ignores_trailing_separators_of_base_witness :
  extract catalogue
          (Globals "https://api.filterlists.com//" "mongodb://localhost:27017"
                   "filterlists_db" (VInt 10))
          "/tags" world0
  = extract catalogue default_globals "/tags" world0.
Proof.
  apply (extract_ignores_trailing_separators_of_base catalogue default_globals
           _ 2%nat "/tags" world0); reflexivity.
Defined.
